(** * A shallow embedding of the chat-relay bridge (src/index.js)

    The repository holds two small Express programs:
    - the primary (Lark) webhook, with its Mongo-backed conversation
      store [Msg] and event ledger [Event];
    - the secondary (Teams) webhook, which only relays to the completion
      endpoint.

    JavaScript values are modelled by [jsval]; a JavaScript string is a
    [string] whose characters stand for code units, so [String.length] is
    [.length].  Asynchronous code is run to completion on one request at a
    time: an [await]ed call is a step of the monad [M], a rejected promise
    is [Throw].  Console output ([logger], [console.error]) is left out.
    Of the storage calls only the ledger's save can fail here (the faults
    of [Env]); the texts of the source that are not ASCII are written as
    their UTF-8 bytes. *)

From Stdlib Require Import List String Ascii Bool Arith ZArith Lia.
From Stdlib Require Import Sorting.Sorted Sorting.Permutation.
Import ListNotations.
Open Scope string_scope.
Set Warnings "-register-all".

(** ** JavaScript values *)

Inductive jsval : Type :=
| JUndefined
| JNull
| JBool (b : bool)
| JNum (n : Z)
| JStr (s : string)
| JArr (items : list jsval)
| JObj (fields : list (string * jsval)).

(** ToBoolean. *)
Definition truthy (v : jsval) : bool :=
  match v with
  | JUndefined | JNull => false
  | JBool b => b
  | JNum n => negb (n =? 0)%Z
  | JStr s => negb (s =? "")
  | JArr _ | JObj _ => true
  end.

Fixpoint assoc (k : string) (fs : list (string * jsval)) : jsval :=
  match fs with
  | [] => JUndefined
  | (k', v) :: fs' => if k =? k' then v else assoc k fs'
  end.

(** Exceptions that the embedded code can raise or let through. *)
Inductive exn : Type :=
| JsError (message : string)        (* new Error(message) *)
| TypeError                         (* property access on undefined/null, call of a non-function *)
| SyntaxError                       (* JSON.parse *)
| MongoError (code : N)             (* driver error carrying a numeric code *)
| ValidationError                   (* Mongoose cannot cast a document field *)
| FetchError (message : string).    (* node-fetch rejection *)

Definition error_code (e : exn) : option N :=
  match e with
  | MongoError c => Some c
  | _ => None
  end.

(** [v.p] for a property name [p]: throws on undefined and null, reads the
    field of an object, and is undefined on every other value this program
    meets (no code here reads [length] through it). *)
Definition get_prop (v : jsval) (p : string) : exn + jsval :=
  match v with
  | JUndefined | JNull => inl TypeError
  | JObj fs => inr (assoc p fs)
  | _ => inr JUndefined
  end.

(** ** String primitives *)

(** White space removed by [String.prototype.trim], within the Latin-1 range. *)
Definition is_space (c : ascii) : bool :=
  let n := nat_of_ascii c in
  ((9 <=? n)%nat && (n <=? 13)%nat) || (n =? 32)%nat || (n =? 160)%nat.

Fixpoint trimStart (s : string) : string :=
  match s with
  | EmptyString => EmptyString
  | String c s' => if is_space c then trimStart s' else s
  end.

Fixpoint trimEnd (s : string) : string :=
  match s with
  | EmptyString => EmptyString
  | String c s' =>
      let t := trimEnd s' in
      if is_space c && (t =? "") then EmptyString else String c t
  end.

Definition trim (s : string) : string := trimEnd (trimStart s).

Definition startsWith (s p : string) : bool := String.prefix p s.

Fixpoint drop (n : nat) (s : string) : string :=
  match n, s with
  | O, _ => s
  | S n', String _ s' => drop n' s'
  | S _, EmptyString => EmptyString
  end.

(** [s.replace(pat, rep)] with a string pattern: the first occurrence only. *)
Fixpoint replace (pat rep s : string) : string :=
  if String.prefix pat s then rep ++ drop (String.length pat) s
  else match s with
       | EmptyString => EmptyString
       | String c s' => String c (replace pat rep s')
       end.

(** ** Documents *)

Definition ObjectId := nat.

(** msgSchema *)
Record Msg : Type := mkMsg {
  _id : ObjectId;
  sessionId : string;
  question : string;
  answer : string;
  msgSize : nat;
  createdAt : Z
}.

(** eventSchema; a field that was never set is [None]. *)
Record Event : Type := mkEvent {
  event_id : string;
  content : option string
}.

(** ** Outbound effects and the world *)

Inductive role : Type := user | assistant.

Record entry : Type := mkEntry { erole : role; econtent : string }.

Inductive effect : Type :=
| Fetched (body : jsval)                          (* POST to FLOWISE_API_URL *)
| Replied (messageId : string) (text : jsval).    (* client.im.message.reply *)

Record World : Type := mkWorld {
  Msgs : list Msg;        (* the Msg collection, in natural (insertion) order *)
  Events : list Event;    (* the Event collection, unique index on event_id *)
  next_id : ObjectId;     (* source of fresh ObjectIds *)
  trace : list effect     (* outbound calls, oldest first *)
}.

Definition empty_world : World := mkWorld [] [] 0 [].

(** What the completion endpoint does with one POST. *)
Inductive FetchOutcome : Type :=
| NetworkFailure (message : string)                 (* fetch(...) rejects *)
| Response (ok : bool) (statusText : string)
           (json : option jsval).                   (* None: response.json() rejects *)

(** What lies outside the program during one request. *)
Record Env : Type := mkEnv {
  LARK_APP_ID : string;
  LARK_APP_SECRET : string;
  now : Z;                          (* Date.now() when a Msg is created *)
  flowise : FetchOutcome;           (* the endpoint's behaviour *)
  reply_fault : bool;               (* client.im.message.reply throws *)
  dedup_fault : option exn;         (* storage failure of the save at the dedup step *)
  content_fault : option exn        (* storage failure of the save in handleReply *)
}.

(** ** The monad of awaited computations *)

Inductive result (A : Type) : Type :=
| Ok (a : A)
| Throw (e : exn).
Arguments Ok {A} a.
Arguments Throw {A} e.

Definition M (A : Type) : Type := World -> result A * World.

Definition ret {A} (a : A) : M A := fun w => (Ok a, w).
Definition throw {A} (e : exn) : M A := fun w => (Throw e, w).
Definition bind {A B} (m : M A) (k : A -> M B) : M B :=
  fun w => match m w with
           | (Ok a, w') => k a w'
           | (Throw e, w') => (Throw e, w')
           end.
Definition try_catch {A} (m : M A) (h : exn -> M A) : M A :=
  fun w => match m w with
           | (Ok a, w') => (Ok a, w')
           | (Throw e, w') => h e w'
           end.
Definition lift {A} (r : exn + A) : M A :=
  match r with
  | inl e => throw e
  | inr a => ret a
  end.

Notation "x <- m ;; k" := (bind m (fun x => k))
  (at level 61, m at next level, right associativity).
Notation "m ;;; k" := (bind m (fun _ => k))
  (at level 61, right associativity).

Definition emit (e : effect) : M unit :=
  fun w => (Ok tt, mkWorld (Msgs w) (Events w) (next_id w) (trace w ++ [e])%list).

(** ** Collection primitives *)

(** [.sort({createdAt: 1})] and [.sort({createdAt: -1})]: a stable insertion
    sort, so documents with equal keys stay in natural order. *)
Section Sorting.
Variable leb : Msg -> Msg -> bool.

Fixpoint insert_sorted (x : Msg) (l : list Msg) : list Msg :=
  match l with
  | [] => [x]
  | y :: l' => if leb x y then x :: l else y :: insert_sorted x l'
  end.

Definition sort_by (l : list Msg) : list Msg :=
  fold_right insert_sorted [] l.
End Sorting.

Definition asc (a b : Msg) : bool := (createdAt a <=? createdAt b)%Z.
Definition desc (a b : Msg) : bool := (createdAt b <=? createdAt a)%Z.

Definition in_session (sid : string) (m : Msg) : bool := sessionId m =? sid.

(** Msg.find({ sessionId }).sort({ createdAt: dir }) *)
Definition Msg_find_sorted (leb : Msg -> Msg -> bool) (sid : string) : M (list Msg) :=
  fun w => (Ok (sort_by leb (filter (in_session sid) (Msgs w))), w).

(** new Msg({...}).save(): a fresh _id, createdAt defaulting to Date.now. *)
Definition Msg_save (env : Env) (sid q a : string) (size : nat) : M unit :=
  fun w =>
    let doc := mkMsg (next_id w) sid q a size (now env) in
    (Ok tt, mkWorld (Msgs w ++ [doc])%list (Events w) (S (next_id w)) (trace w)).

Fixpoint remove_first (id : ObjectId) (l : list Msg) : list Msg :=
  match l with
  | [] => []
  | m :: l' => if (_id m =? id)%nat then l' else m :: remove_first id l'
  end.

(** Msg.deleteOne({ _id }) *)
Definition Msg_deleteOne (id : ObjectId) : M unit :=
  fun w => (Ok tt, mkWorld (remove_first id (Msgs w)) (Events w) (next_id w) (trace w)).

(** Msg.deleteMany({ sessionId }) *)
Definition Msg_deleteMany (sid : string) : M unit :=
  fun w => (Ok tt, mkWorld (filter (fun m => negb (in_session sid m)) (Msgs w))
                           (Events w) (next_id w) (trace w)).

Definition has_event (eid : string) (l : list Event) : bool :=
  existsb (fun e => event_id e =? eid) l.

(** Event.findOne({ event_id }) *)
Definition Event_findOne (eid : string) : M (option Event) :=
  fun w => (Ok (find (fun e => event_id e =? eid) (Events w)), w).

(** new Event(doc).save(): a storage failure [fault] is raised as it is;
    otherwise the unique index on event_id rejects a second document with
    the same id with the duplicate-key code 11000. *)
Definition Event_save (fault : option exn) (doc : Event) : M unit :=
  fun w =>
    match fault with
    | Some e => (Throw e, w)
    | None =>
        if has_event (event_id doc) (Events w)
        then (Throw (MongoError 11000%N), w)
        else (Ok tt, mkWorld (Msgs w) (Events w ++ [doc])%list (next_id w) (trace w))
    end.

(** * The primary variant *)

Definition obj_code (c : Z) : jsval := JObj [("code", JNum c)].
Definition obj_code_message (c : Z) (m : string) : jsval :=
  JObj [("code", JNum c); ("message", JStr m)].

(** reply(messageId, content): a failure of the platform call is caught
    and logged; [trace] keeps the replies that were sent. *)
Definition reply (env : Env) (messageId : string) (text : jsval) : M unit :=
  try_catch
    (if reply_fault env then throw (JsError "send message to Lark error")
     else emit (Replied messageId text))
    (fun _ => ret tt).

Definition push_turn (prompt : list entry) (row : Msg) : list entry :=
  (prompt ++ [mkEntry user (question row); mkEntry assistant (answer row)])%list.

Definition buildConversation (sid q : string) : M (list entry) :=
  messages <- Msg_find_sorted asc sid ;;
  let prompt := fold_left push_turn messages [] in
  ret (prompt ++ [mkEntry user q])%list.

Definition budget : nat := 1024.

(** The body of the forEach in discardConversation: the state is
    (totalSize, countList). *)
Definition count_step (st : nat * list (ObjectId * nat)) (row : Msg)
  : nat * list (ObjectId * nat) :=
  let totalSize := fst st + msgSize row in
  (totalSize, (snd st ++ [(_id row, totalSize)])%list).

Fixpoint for_of {A} (l : list A) (body : A -> M unit) : M unit :=
  match l with
  | [] => ret tt
  | c :: l' => body c ;;; for_of l' body
  end.

Definition discardConversation (sid : string) : M unit :=
  messages <- Msg_find_sorted desc sid ;;
  let countList := snd (fold_left count_step messages (0, [])) in
  for_of countList
    (fun c => if (budget <? snd c)%nat then Msg_deleteOne (fst c) else ret tt).

(** saveConversation(sessionId, question, answer).  [question] is always a
    string at the call site; [answer] is whatever the endpoint put in its
    text field.  A truthy answer that is not a string makes msgSize NaN or
    the answer uncastable, and Mongoose rejects the save. *)
Definition saveConversation (env : Env) (sid q : string) (a : jsval) : M unit :=
  try_catch
    (if negb (truthy (JStr q)) || negb (truthy a)
     then throw (JsError "Question or answer is missing or empty.")
     else match a with
          | JStr a' =>
              let size := String.length q + String.length a' in
              Msg_save env sid q a' size ;;;
              discardConversation sid
          | _ => throw ValidationError
          end)
    (fun error => throw error).

Definition clearConversation (sid : string) : M unit := Msg_deleteMany sid.

Definition helpText : string :=
  "Lark GPT manpages

Usage:
    /clear    remove conversation history for get a new, clean, bot context.
    /help     get more help message
  ".

Definition cmdHelp (env : Env) (messageId : string) : M unit :=
  reply env messageId (JStr helpText).

(** cmdClear starts clearConversation without awaiting it; here it runs
    before the reply. *)
Definition cmdClear (env : Env) (sid messageId : string) : M unit :=
  clearConversation sid ;;;
  reply env messageId (JStr "✅ All history removed").

Definition cmdProcess (env : Env) (action sid messageId : string) : M jsval :=
  (if action =? "/help" then cmdHelp env messageId
   else if action =? "/clear" then cmdClear env sid messageId
   else cmdHelp env messageId) ;;;
  ret (obj_code 0).

Definition entry_json (e : entry) : jsval :=
  JObj [("role", JStr (match erole e with user => "user" | assistant => "assistant" end));
        ("content", JStr (econtent e))].

(** query(data): no look at the status; the decoded body is returned. *)
Definition query (env : Env) (data : jsval) : M jsval :=
  try_catch
    (emit (Fetched data) ;;;
     match flowise env with
     | NetworkFailure msg => throw (FetchError msg)
     | Response _ _ None => throw (FetchError "invalid-json")
     | Response _ _ (Some result) => ret result
     end)
    (fun error => throw error).

Definition doctor (env : Env) : jsval :=
  let failure (en_US : string) : jsval :=
    JObj [("code", JNum 1); ("message", JObj [("en_US", JStr en_US)])] in
  if LARK_APP_ID env =? "" then
    failure "Here is no Lark APP id, please check & re-Deploy & call again"
  else if negb (startsWith (LARK_APP_ID env) "cli_") then
    failure "Your Lark App ID is Wrong, Please Check and call again. Lark APPID must Start with cli"
  else if LARK_APP_SECRET env =? "" then
    failure "Here is no Lark APP Secret, please check & re-Deploy & call again"
  else
    JObj [("code", JNum 0);
          ("message",
           JObj [("zh_CN", JStr "✅ 配置成功，接下来你可以在 Lark 应用当中使用机器人来完成你的工作。");
                 ("en_US", JStr "✅ Configuration is correct, you can use this bot in your Lark App")]);
          ("meta", JObj [("LARK_APP_ID", JStr (LARK_APP_ID env))])].

(** The receiver of [.replace] must be a string. *)
Definition as_string (v : jsval) : M string :=
  match v with
  | JStr s => ret s
  | _ => throw TypeError
  end.

Definition handleReply (env : Env) (userInput : jsval)
           (sid messageId eventId : string) : M jsval :=
  t <- lift (get_prop userInput "text") ;;
  text <- as_string t ;;
  let q := trim (replace "@_user_1" "" text) in
  let action := trim q in
  if startsWith action "/" then cmdProcess env action sid messageId
  else
    prompt <- buildConversation sid q ;;
    openaiResponse <-
      try_catch
        (response <- query env (JObj [("question", JArr (map entry_json prompt))]) ;;
         lift (get_prop response "text"))
        (fun _ => ret JUndefined) ;;
    saveConversation env sid q openaiResponse ;;;
    reply env messageId openaiResponse ;;;
    try_catch
      (Event_save (content_fault env) (mkEvent eventId (Some text)) ;;;
       ret (obj_code 0))
      (fun error =>
         match error_code error with
         | Some 11000%N => ret (obj_code_message 1 "Duplicate event ID")
         | _ => throw error
         end).

(** The inbound envelope.  [msg_content] is what JSON.parse makes of
    event.message.content ([None]: it throws); an envelope without the
    event fields has [event = None]. *)
Record Header : Type := mkHeader {
  event_type : string;
  hdr_event_id : string
}.

Record MessageEvent : Type := mkMessageEvent {
  message_id : string;
  chat_id : string;
  message_type : string;
  chat_type : string;
  msg_content : option jsval;
  sender_user_id : string
}.

Record Params : Type := mkParams {
  encrypt : jsval;
  type : jsval;
  challenge : jsval;
  header : option Header;
  event : option MessageEvent;
  debug : bool            (* req.query.debug is truthy *)
}.

Definition JSON_parse (c : option jsval) : M jsval :=
  match c with
  | Some v => ret v
  | None => throw SyntaxError
  end.

Definition session_of (chatId senderId : string) : string := chatId ++ senderId.

(** recordIfNew: the guarded insert of the dedup step. *)
Inductive Recorded : Type := Inserted | Duplicate.

Definition recordIfNew (fault : option exn) (eventId : string) (c : option string)
  : M Recorded :=
  try_catch
    (Event_save fault (mkEvent eventId c) ;;; ret Inserted)
    (fun error =>
       match error_code error with
       | Some 11000%N => ret Duplicate
       | _ => throw error
       end).

(** [v === s] for a string literal [s]. *)
Definition strict_eq (v : jsval) (s : string) : bool :=
  match v with
  | JStr s' => s' =? s
  | _ => false
  end.

Definition unsupported : string := "Not support other format question, only text.".

(** app.post("/webhook") *)
Definition webhook (env : Env) (params : Params) : M jsval :=
  if truthy (encrypt params) then
    ret (JObj [("code", JNum 1);
               ("message",
                JObj [("zh_CN", JStr "你配置了 Encrypt Key，请关闭该功能。");
                      ("en_US", JStr "You have open Encrypt Key Feature, please close it.")])])
  else
  if strict_eq (type params) "url_verification" then
    ret (JObj [("challenge", challenge params)])
  else
  match header params with
  | None => ret (doctor env)
  | Some hdr =>
  if debug params then ret (doctor env)
  else
  if event_type hdr =? "im.message.receive_v1" then
    let eventId := hdr_event_id hdr in
    match event params with
    | None => throw TypeError
    | Some ev =>
    let messageId := message_id ev in
    let sid := session_of (chat_id ev) (sender_user_id ev) in
    seen <- Event_findOne eventId ;;
    match seen with
    | Some _ => ret (obj_code 1)
    | None =>
    r <- recordIfNew (dedup_fault env) eventId None ;;
    match r with
    | Duplicate => ret (obj_code_message 1 "Duplicate event ID")
    | Inserted =>
    if chat_type ev =? "p2p" then
      if negb (message_type ev =? "text") then
        reply env messageId (JStr unsupported) ;;;
        ret (obj_code 0)
      else
        userInput <- JSON_parse (msg_content ev) ;;
        handleReply env userInput sid messageId eventId
    else if chat_type ev =? "group" then
      userInput <- JSON_parse (msg_content ev) ;;
      handleReply env userInput sid messageId eventId
    else ret (obj_code 2)
    end end end
  else ret (obj_code 2)
  end.

(** * The secondary variant *)

Module Teams.

Record HttpResponse : Type := mkHttp { status : nat; json_body : jsval }.

Definition queryFlowise (env : Env) (q sessionId : jsval) : M jsval :=
  let data :=
    JObj [("question", q);
          ("overrideConfig",
           JObj [("sessionId",
                  if truthy sessionId then sessionId else JStr "default-session")])] in
  try_catch
    (emit (Fetched data) ;;;
     match flowise env with
     | NetworkFailure msg => throw (FetchError msg)
     | Response ok statusText json =>
         if negb ok
         then throw (JsError ("Flowise API returned an error: " ++ statusText))
         else match json with
              | None => throw (FetchError "invalid-json")
              | Some result =>
                  if truthy result
                  then text <- lift (get_prop result "text") ;;
                       if truthy text then ret text
                       else throw (JsError "Invalid response from Flowise API")
                  else throw (JsError "Invalid response from Flowise API")
              end
     end)
    (fun error => throw error).

(** app.post("/teams-webhook") *)
Definition teams_webhook (env : Env) (body : jsval) : M HttpResponse :=
  text <- lift (get_prop body "text") ;;
  sessionId <- lift (get_prop body "sessionId") ;;
  if negb (truthy text) || negb (truthy sessionId) then
    ret (mkHttp 400
           (JObj [("error", JStr "Invalid input. 'text' and 'sessionId' are required.")]))
  else
    try_catch
      (answer <- queryFlowise env text sessionId ;;
       ret (mkHttp 200 (JObj [("message", answer)])))
      (fun _ =>
         ret (mkHttp 500
                (JObj [("error", JStr "Internal Server Error. Please try again later.")]))).

End Teams.

(** * Specification-side definitions *)

Definition ids (l : list Msg) : list ObjectId := map _id l.

Definition total_size (l : list Msg) : nat := list_sum (map msgSize l).

(** The turns of a session as they lie in the collection. *)
Definition session_turns (sid : string) (w : World) : list Msg :=
  filter (in_session sid) (Msgs w).

(** history(sessionId): oldest first. *)
Definition history (sid : string) (w : World) : list Msg :=
  sort_by asc (session_turns sid w).

(** The listing that the trim pass walks: newest first. *)
Definition newest_first (sid : string) (w : World) : list Msg :=
  sort_by desc (session_turns sid w).

(** ObjectIds are unique and were all handed out by [next_id]. *)
Definition wf_world (w : World) : Prop :=
  NoDup (ids (Msgs w)) /\ Forall (fun m => _id m < next_id w) (Msgs w).

Definition mem (id : ObjectId) (l : list ObjectId) : bool :=
  existsb (Nat.eqb id) l.

(** The listing from its head down to and including the turn [id]. *)
Fixpoint upto (id : ObjectId) (l : list Msg) : list Msg :=
  match l with
  | [] => []
  | x :: l' => if (_id x =? id)%nat then [x] else x :: upto id l'
  end.

(** In the words of the trim policy: a turn of the session is over budget
    when the sizes summed from the newest turn down to it, itself
    included, exceed the budget. *)
Definition over_budget (sid : string) (w : World) (m : Msg) : bool :=
  in_session sid m &&
  (budget <? total_size (upto (_id m) (newest_first sid w)))%nat.

(** How many turns at the head of a listing fit, counting from [acc]. *)
Fixpoint keep_count (acc : nat) (l : list Msg) : nat :=
  match l with
  | [] => 0
  | m :: l' =>
      if (budget <? acc + msgSize m)%nat then 0
      else S (keep_count (acc + msgSize m) l')
  end.

(** The countList of discardConversation, written by recursion. *)
Fixpoint counts (acc : nat) (l : list Msg) : list (ObjectId * nat) :=
  match l with
  | [] => []
  | m :: l' => (_id m, acc + msgSize m) :: counts (acc + msgSize m) l'
  end.

Definition doomed (acc : nat) (l : list Msg) : list ObjectId :=
  map fst (filter (fun c => (budget <? snd c)%nat) (counts acc l)).

Definition turn_entries (row : Msg) : list entry :=
  [mkEntry user (question row); mkEntry assistant (answer row)].

Definition count_events (eid : string) (w : World) : nat :=
  List.length (filter (fun e => event_id e =? eid) (Events w)).

Definition fetches (w : World) : nat :=
  List.length (filter (fun e => match e with Fetched _ => true | _ => false end) (trace w)).

Definition replies (w : World) : list effect :=
  filter (fun e => match e with Replied _ _ => true | _ => false end) (trace w).

(** [result.text] for a truthy [result]. *)
Definition text_field (result : jsval) : jsval :=
  match result with
  | JObj fs => assoc "text" fs
  | _ => JUndefined
  end.

Definition has_text (json : option jsval) : bool :=
  match json with
  | Some result => truthy result && truthy (text_field result)
  | None => false
  end.

(** UpstreamError in the words of the contract: the endpoint is
    unreachable, answers with a non-success status, or its response lacks
    the expected text field. *)
Definition spec_upstream_error (o : FetchOutcome) : bool :=
  match o with
  | NetworkFailure _ => true
  | Response ok _ json => negb ok || negb (has_text json)
  end.

(** When the primary variant's query rejects: the request fails or the
    body is not JSON. *)
Definition query_rejects (o : FetchOutcome) : bool :=
  match o with
  | NetworkFailure _ => true
  | Response _ _ None => true
  | Response _ _ (Some _) => false
  end.

Definition bad_request : Teams.HttpResponse :=
  Teams.mkHttp 400
    (JObj [("error", JStr "Invalid input. 'text' and 'sessionId' are required.")]).

Definition server_error : Teams.HttpResponse :=
  Teams.mkHttp 500
    (JObj [("error", JStr "Internal Server Error. Please try again later.")]).

Definition missing_answer : exn :=
  JsError "Question or answer is missing or empty.".

Definition set_Msgs (w : World) (ms : list Msg) : World :=
  mkWorld ms (Events w) (next_id w) (trace w).

(** A computation is ledger-stable for [eid] when, run on a ledger that
    already holds [eid], it leaves the ledger as it is. *)
Definition ledger_stable {A} (eid : string) (m : M A) : Prop :=
  forall w, has_event eid (Events w) = true -> Events (snd (m w)) = Events w.

(** The turn that an append creates in world [w]. *)
Definition new_turn (env : Env) (sid q a : string) (w : World) : Msg :=
  mkMsg (next_id w) sid q a (String.length q + String.length a) (now env).

(** A collection after the trim pass for [sid]. *)
Definition trimmed (sid : string) (ms : list Msg) : list Msg :=
  fold_left (fun ms id => remove_first id ms)
            (doomed 0 (sort_by desc (filter (in_session sid) ms))) ms.

(** The unique index of the ledger. *)
Definition ledger_unique (w : World) : Prop := NoDup (map event_id (Events w)).

(** Two worlds with the same database; their traces may differ. *)
Definition same_db (w w' : World) : Prop :=
  Msgs w = Msgs w' /\ Events w = Events w' /\ next_id w = next_id w'.

(** Two computations that cannot be told apart through the database. *)
Definition db_equiv {A} (m m' : M A) : Prop :=
  forall w w', same_db w w' ->
    fst (m w) = fst (m' w') /\ same_db (snd (m w)) (snd (m' w')).

Definition with_reply_fault (b : bool) (env : Env) : Env :=
  mkEnv (LARK_APP_ID env) (LARK_APP_SECRET env) (now env) (flowise env) b
        (dedup_fault env) (content_fault env).

(** The payload of the primary variant for a prompt. *)
Definition prompt_payload (prompt : list entry) : jsval :=
  JObj [("question", JArr (map entry_json prompt))].

(** The webhook from the chat-type gate on, once the dedup step has
    recorded the event. *)
Definition after_dedup (env : Env) (ev : MessageEvent) (eventId : string) : M jsval :=
  if chat_type ev =? "p2p" then
    if negb (message_type ev =? "text") then
      reply env (message_id ev) (JStr unsupported) ;;;
      ret (obj_code 0)
    else
      userInput <- JSON_parse (msg_content ev) ;;
      handleReply env userInput
        (session_of (chat_id ev) (sender_user_id ev)) (message_id ev) eventId
  else if chat_type ev =? "group" then
    userInput <- JSON_parse (msg_content ev) ;;
    handleReply env userInput
      (session_of (chat_id ev) (sender_user_id ev)) (message_id ev) eventId
  else ret (obj_code 2).

(** The ledger with the bare record of the dedup step added. *)
Definition recorded (eid : string) (w : World) : World :=
  mkWorld (Msgs w) (Events w ++ [mkEvent eid None]) (next_id w) (trace w).

(** A stored turn as saveConversation writes it: both texts non-empty,
    the size their joint length. *)
Definition well_sized (m : Msg) : Prop :=
  question m <> "" /\ answer m <> "" /\
  msgSize m = String.length (question m) + String.length (answer m).

(** * Sample inputs *)

Fixpoint letters (n : nat) : string :=
  match n with
  | O => EmptyString
  | S n' => String "a" (letters n')
  end.

Definition good_reply : FetchOutcome :=
  Response true "OK" (Some (JObj [("text", JStr "hello")])).

(** An environment without faults whose clock reads [t]. *)
Definition env_at (t : Z) : Env :=
  mkEnv "cli_demo" "secret" t good_reply false None None.

Definition env_with (out : FetchOutcome) : Env :=
  mkEnv "cli_demo" "secret" 1000 out false None None.

(** Appending a turn of size 600, then one of size 500. *)
Definition after_600 : World :=
  snd (saveConversation (env_at 1000) "s" (letters 300) (JStr (letters 300)) empty_world).

Definition after_600_500 : World :=
  snd (saveConversation (env_at 2000) "s" (letters 250) (JStr (letters 250)) after_600).

(** A message-received envelope carrying the content {"text": text}. *)
Definition text_event (chatType chatId senderId eventId messageId text : string)
  : Params :=
  mkParams JUndefined JUndefined JUndefined
           (Some (mkHeader "im.message.receive_v1" eventId))
           (Some (mkMessageEvent messageId chatId "text" chatType
                                 (Some (JObj [("text", JStr text)])) senderId))
           false.

(** An image sent to a group chat: the content has an image key and no text. *)
Definition group_image : Params :=
  mkParams JUndefined JUndefined JUndefined
           (Some (mkHeader "im.message.receive_v1" "e1"))
           (Some (mkMessageEvent "m1" "oc_1" "image" "group"
                                 (Some (JObj [("image_key", JStr "img_v2_1")])) "u1"))
           false.

(** The world after the pair (chat "ab", sender "c") has asked "hi". *)
Definition after_hi : World :=
  snd (webhook (env_at 1000) (text_event "p2p" "ab" "c" "e1" "m1" "hi") empty_world).

(** The endpoint answers 500 with a JSON error body. *)
Definition failed_status : FetchOutcome :=
  Response false "Internal Server Error" (Some (JObj [("error", JStr "boom")])).

Definition teams_body : jsval :=
  JObj [("text", JStr "hi"); ("sessionId", JStr "t1")].

(** An image sent in a direct chat. *)
Definition p2p_image : Params :=
  mkParams JUndefined JUndefined JUndefined
           (Some (mkHeader "im.message.receive_v1" "e1"))
           (Some (mkMessageEvent "m1" "oc_1" "image" "p2p"
                                 (Some (JObj [("image_key", JStr "img_v2_1")])) "u1"))
           false.

(** The handshake of the platform. *)
Definition handshake : Params :=
  mkParams JUndefined (JStr "url_verification") (JStr "abc123") None None false.

(** The [code] field of a response. *)
Definition code_of (v : jsval) : jsval :=
  match v with
  | JObj fs => assoc "code" fs
  | _ => JUndefined
  end.

(** * Facts about the collection primitives *)

Section SortFacts.
Variable leb : Msg -> Msg -> bool.
Variable R : Msg -> Msg -> Prop.
Hypothesis leb_R : forall x y, leb x y = true -> R x y.
Hypothesis nleb_R : forall x y, leb x y = false -> R y x.

Lemma insert_sorted_perm x l : Permutation (insert_sorted leb x l) (x :: l).
Proof.
  induction l as [|y l IH]; simpl; [reflexivity|].
  destruct (leb x y); [reflexivity|].
  rewrite IH. apply perm_swap.
Qed.

Lemma sort_by_perm l : Permutation (sort_by leb l) l.
Proof.
  induction l as [|x l IH]; simpl; [constructor|].
  rewrite insert_sorted_perm. now constructor.
Qed.

Lemma insert_sorted_hd x a l :
  R a x -> HdRel R a l -> HdRel R a (insert_sorted leb x l).
Proof.
  intros Hax Hl. destruct l as [|y l]; simpl.
  - now constructor.
  - destruct (leb x y); constructor; auto. now inversion Hl.
Qed.

Lemma insert_sorted_sorted x l :
  Sorted R l -> Sorted R (insert_sorted leb x l).
Proof.
  induction 1 as [|y l Hs IH Hh]; simpl.
  - repeat constructor.
  - destruct (leb x y) eqn:E.
    + constructor; [now constructor|]. constructor. now apply leb_R.
    + constructor; [exact IH|].
      apply insert_sorted_hd; [now apply nleb_R | exact Hh].
Qed.

Lemma sort_by_sorted l : Sorted R (sort_by leb l).
Proof.
  induction l as [|x l IH]; simpl; [constructor|].
  now apply insert_sorted_sorted.
Qed.
End SortFacts.

Lemma history_sorted sid w :
  Sorted (fun a b => (createdAt a <= createdAt b)%Z) (history sid w).
Proof.
  apply sort_by_sorted; unfold asc; intros x y H.
  - now apply Z.leb_le.
  - apply Z.leb_gt in H. lia.
Qed.

Lemma newest_first_sorted sid w :
  Sorted (fun a b => (createdAt b <= createdAt a)%Z) (newest_first sid w).
Proof.
  apply sort_by_sorted; unfold desc; intros x y H.
  - now apply Z.leb_le.
  - apply Z.leb_gt in H. lia.
Qed.

Lemma total_size_perm l l' : Permutation l l' -> total_size l = total_size l'.
Proof.
  intros H. unfold total_size.
  induction H; simpl; lia.
Qed.

Lemma NoDup_ids_inj l x y :
  NoDup (ids l) -> In x l -> In y l -> _id x = _id y -> x = y.
Proof.
  induction l as [|a l IH]; simpl; [tauto|].
  intros Hn Hx Hy E. inversion Hn as [|? ? Hna Hnl]; subst.
  destruct Hx as [<-|Hx], Hy as [<-|Hy]; auto.
  - exfalso. apply Hna. rewrite E. now apply in_map.
  - exfalso. apply Hna. rewrite <- E. now apply in_map.
Qed.

Lemma NoDup_ids_filter f l : NoDup (ids l) -> NoDup (ids (filter f l)).
Proof.
  induction l as [|a l IH]; simpl; auto.
  intros Hn. inversion Hn as [|? ? Hna Hnl]; subst.
  destruct (f a); simpl; auto.
  constructor; auto.
  intros Hin. apply Hna. unfold ids in *.
  apply in_map_iff in Hin as (x & Ex & Hx).
  apply filter_In in Hx as [Hx _]. rewrite <- Ex. now apply in_map.
Qed.

Lemma NoDup_ids_perm l l' : Permutation l l' -> NoDup (ids l) -> NoDup (ids l').
Proof.
  intros H. apply Permutation_NoDup. now apply Permutation_map.
Qed.

Lemma filter_all {A} (f : A -> bool) l :
  (forall x, In x l -> f x = true) -> filter f l = l.
Proof.
  intros H. rewrite (filter_ext_in f (fun _ => true) l H). apply filter_true.
Qed.

Lemma filter_none {A} (f : A -> bool) l :
  (forall x, In x l -> f x = false) -> filter f l = [].
Proof.
  intros H. rewrite (filter_ext_in f (fun _ => false) l H). apply filter_false.
Qed.

(** ** deleteOne on a collection with unique ids *)

Lemma remove_first_filter id l :
  NoDup (ids l) ->
  remove_first id l = filter (fun m => negb (_id m =? id)%nat) l.
Proof.
  induction l as [|a l IH]; simpl; auto.
  intros Hn. inversion Hn as [|? ? Hna Hnl]; subst.
  destruct (_id a =? id)%nat eqn:E; simpl.
  - apply Nat.eqb_eq in E. subst id.
    symmetry. apply filter_all. intros x Hx.
    apply negb_true_iff, Nat.eqb_neq. intros Ex.
    apply Hna. rewrite <- Ex. now apply in_map.
  - now rewrite IH.
Qed.

Lemma remove_all_filter D l :
  NoDup (ids l) ->
  fold_left (fun ms id => remove_first id ms) D l
  = filter (fun m => negb (mem (_id m) D)) l.
Proof.
  revert l. induction D as [|d D IH]; intros l Hn; simpl.
  - symmetry. now apply filter_all.
  - rewrite remove_first_filter by assumption.
    rewrite IH by now apply NoDup_ids_filter.
    clear. induction l as [|a l IHl]; simpl; auto.
    rewrite (Nat.eqb_sym (_id a) d).
    destruct (d =? _id a)%nat; simpl; rewrite IHl; reflexivity.
Qed.

(** ** The running sum *)

Lemma fold_count_step l : forall acc pre,
  fold_left count_step l (acc, pre)
  = (acc + total_size l, (pre ++ counts acc l)%list).
Proof.
  induction l as [|m l IH]; intros acc pre; simpl.
  - unfold total_size; simpl. now rewrite Nat.add_0_r, app_nil_r.
  - unfold count_step at 2; simpl. rewrite IH.
    unfold total_size; simpl. rewrite <- app_assoc. simpl.
    f_equal. lia.
Qed.

Lemma doomed_cons acc m l :
  doomed acc (m :: l)
  = ((if (budget <? acc + msgSize m)%nat then [_id m] else [])
       ++ doomed (acc + msgSize m) l)%list.
Proof.
  unfold doomed; simpl. now destruct (budget <? acc + msgSize m)%nat.
Qed.

Lemma mem_app id a b : mem id (a ++ b) = mem id a || mem id b.
Proof. apply existsb_app. Qed.

Lemma mem_single id d : mem id [d] = (id =? d)%nat.
Proof. unfold mem; simpl. apply orb_false_r. Qed.

Lemma doomed_incl acc l id : mem id (doomed acc l) = true -> In id (ids l).
Proof.
  revert acc. induction l as [|m l IH]; intros acc; simpl.
  - discriminate.
  - rewrite doomed_cons, mem_app.
    intros H. apply orb_true_iff in H as [H|H].
    + destruct (budget <? acc + msgSize m)%nat; [|discriminate].
      rewrite mem_single in H. apply Nat.eqb_eq in H. now left.
    + right. now apply (IH (acc + msgSize m)).
Qed.

Lemma not_mem_doomed acc l id : ~ In id (ids l) -> mem id (doomed acc l) = false.
Proof.
  intros H. destruct (mem id (doomed acc l)) eqn:Hm; auto.
  apply doomed_incl in Hm. contradiction.
Qed.

(** A turn of the listing is deleted exactly when the sum down to it is
    over the budget. *)
Lemma mem_doomed l : forall acc x,
  NoDup (ids l) -> In x l ->
  mem (_id x) (doomed acc l)
  = (budget <? acc + total_size (upto (_id x) l))%nat.
Proof.
  induction l as [|m l IH]; intros acc x Hn Hx; [destruct Hx|].
  inversion Hn as [|? ? Hna Hnl]; subst.
  rewrite doomed_cons, mem_app. simpl upto.
  destruct (_id m =? _id x)%nat eqn:E.
  - apply Nat.eqb_eq in E.
    rewrite (not_mem_doomed (acc + msgSize m) l (_id x)), orb_false_r
      by (rewrite <- E; exact Hna).
    unfold total_size; simpl. rewrite Nat.add_0_r.
    destruct (budget <? acc + msgSize m)%nat; [|reflexivity].
    rewrite mem_single. apply Nat.eqb_eq. auto.
  - destruct Hx as [->|Hx]; [rewrite Nat.eqb_refl in E; discriminate|].
    rewrite IH by assumption.
    replace (acc + total_size (m :: upto (_id x) l))
      with (acc + msgSize m + total_size (upto (_id x) l))
      by (unfold total_size; simpl; lia).
    destruct (budget <? acc + msgSize m)%nat eqn:B; [|reflexivity].
    rewrite mem_single, (Nat.eqb_sym (_id x) (_id m)), E. reflexivity.
Qed.

Lemma doomed_all acc l : budget < acc -> doomed acc l = ids l.
Proof.
  revert acc. induction l as [|m l IH]; intros acc H; [reflexivity|].
  rewrite doomed_cons.
  assert (E : (budget <? acc + msgSize m)%nat = true) by (apply Nat.ltb_lt; lia).
  rewrite E. simpl. f_equal. apply IH. lia.
Qed.

Lemma mem_ids x l : In x l -> mem (_id x) (ids l) = true.
Proof.
  intros H. apply existsb_exists. exists (_id x).
  split; [now apply in_map | apply Nat.eqb_refl].
Qed.

(** The survivors of a listing are its first [keep_count] turns. *)
Lemma survivors_firstn l : forall acc,
  NoDup (ids l) ->
  filter (fun m => negb (mem (_id m) (doomed acc l))) l
  = firstn (keep_count acc l) l.
Proof.
  induction l as [|m l IH]; intros acc Hn; [reflexivity|].
  inversion Hn as [|? ? Hna Hnl]; subst.
  simpl keep_count.
  destruct (budget <? acc + msgSize m)%nat eqn:E.
  - rewrite doomed_cons, E.
    apply Nat.ltb_lt in E. rewrite doomed_all by lia.
    change ([_id m] ++ ids l)%list with (ids (m :: l)). simpl firstn.
    apply filter_none. intros x Hx.
    apply negb_false_iff. now apply mem_ids.
  - simpl firstn. rewrite <- (IH (acc + msgSize m)) by assumption.
    rewrite doomed_cons, E. simpl app. simpl filter.
    now rewrite (not_mem_doomed (acc + msgSize m) l (_id m) Hna).
Qed.

Lemma firstn_keep_count_size l : forall acc,
  acc <= budget ->
  acc + total_size (firstn (keep_count acc l) l) <= budget.
Proof.
  induction l as [|m l IH]; intros acc H; simpl.
  - unfold total_size; simpl. lia.
  - destruct (budget <? acc + msgSize m)%nat eqn:E; simpl.
    + unfold total_size; simpl. lia.
    + apply Nat.ltb_ge in E. specialize (IH _ E).
      unfold total_size in *; simpl. lia.
Qed.

Lemma filter_perm {A} (f : A -> bool) l l' :
  Permutation l l' -> Permutation (filter f l) (filter f l').
Proof.
  induction 1 as [|x l l' _ IH|x y l|l l' l'' _ IH1 _ IH2]; simpl.
  - constructor.
  - destruct (f x); auto.
  - destruct (f x), (f y); auto. apply perm_swap.
  - now transitivity (filter f l').
Qed.

Lemma filter_comm {A} (f g : A -> bool) l :
  filter f (filter g l) = filter g (filter f l).
Proof.
  induction l as [|a l IH]; simpl; auto.
  destruct (f a) eqn:F, (g a) eqn:G; simpl; rewrite ?F, ?G, IH; reflexivity.
Qed.

(** ** Running the trim pass *)

Lemma set_Msgs_id w : set_Msgs w (Msgs w) = w.
Proof. now destruct w. Qed.

Lemma for_of_delete cl : forall w,
  for_of cl (fun c => if (budget <? snd c)%nat then Msg_deleteOne (fst c) else ret tt) w
  = (Ok tt,
     set_Msgs w (fold_left (fun ms id => remove_first id ms)
                           (map fst (filter (fun c => (budget <? snd c)%nat) cl))
                           (Msgs w))).
Proof.
  induction cl as [|c cl IH]; intros w; simpl.
  - unfold ret. now rewrite set_Msgs_id.
  - unfold bind. destruct (budget <? snd c)%nat; simpl.
    + unfold Msg_deleteOne. rewrite IH. reflexivity.
    + unfold ret. rewrite IH. reflexivity.
Qed.

Lemma discard_run sid w :
  discardConversation sid w
  = (Ok tt,
     set_Msgs w (fold_left (fun ms id => remove_first id ms)
                           (doomed 0 (newest_first sid w)) (Msgs w))).
Proof.
  unfold discardConversation, bind, Msg_find_sorted.
  rewrite fold_count_step. simpl snd.
  rewrite for_of_delete. reflexivity.
Qed.

Lemma newest_first_perm sid w :
  Permutation (newest_first sid w) (session_turns sid w).
Proof. apply sort_by_perm. Qed.

Lemma newest_first_NoDup sid w :
  NoDup (ids (Msgs w)) -> NoDup (ids (newest_first sid w)).
Proof.
  intros H. apply (NoDup_ids_perm (session_turns sid w)).
  - symmetry. apply newest_first_perm.
  - now apply NoDup_ids_filter.
Qed.

Lemma in_newest_first sid w m :
  In m (newest_first sid w) <-> In m (Msgs w) /\ in_session sid m = true.
Proof.
  rewrite <- filter_In. split; apply Permutation_in.
  - apply newest_first_perm.
  - symmetry. apply newest_first_perm.
Qed.

(** What the pass removes, by ObjectId and in the policy's words. *)
Lemma doomed_over_budget sid w m :
  NoDup (ids (Msgs w)) -> In m (Msgs w) ->
  mem (_id m) (doomed 0 (newest_first sid w)) = over_budget sid w m.
Proof.
  intros Hn Hm. unfold over_budget.
  destruct (in_session sid m) eqn:S; simpl.
  - rewrite mem_doomed; auto using newest_first_NoDup.
    apply in_newest_first; auto.
  - apply not_mem_doomed. intros Hin.
    apply in_map_iff in Hin as (x & Ex & Hx).
    apply in_newest_first in Hx as [Hx Sx].
    assert (x = m) by (eapply NoDup_ids_inj; eauto).
    subst x. congruence.
Qed.

Lemma discard_Msgs sid w :
  NoDup (ids (Msgs w)) ->
  Msgs (snd (discardConversation sid w))
  = filter (fun m => negb (mem (_id m) (doomed 0 (newest_first sid w)))) (Msgs w).
Proof.
  intros Hn. rewrite discard_run. simpl. now apply remove_all_filter.
Qed.

Lemma discard_session sid w :
  NoDup (ids (Msgs w)) ->
  Permutation (session_turns sid (snd (discardConversation sid w)))
              (firstn (keep_count 0 (newest_first sid w)) (newest_first sid w)).
Proof.
  intros Hn. unfold session_turns at 1. rewrite discard_Msgs by assumption.
  rewrite filter_comm.
  rewrite <- survivors_firstn by now apply newest_first_NoDup.
  apply filter_perm. symmetry. apply newest_first_perm.
Qed.

Lemma discard_other_fields sid w :
  let w' := snd (discardConversation sid w) in
  Events w' = Events w /\ next_id w' = next_id w /\ trace w' = trace w.
Proof. rewrite discard_run. simpl. auto. Qed.

Lemma wf_discard sid w : wf_world w -> wf_world (snd (discardConversation sid w)).
Proof.
  intros [Hn Hb]. split.
  - rewrite discard_Msgs by assumption. now apply NoDup_ids_filter.
  - rewrite discard_Msgs by assumption.
    destruct (discard_other_fields sid w) as (_ & -> & _).
    apply Forall_forall. intros m Hm. apply filter_In in Hm as [Hm _].
    revert m Hm. now apply Forall_forall.
Qed.

Lemma wf_Msg_save env sid q a size w :
  wf_world w -> wf_world (snd (Msg_save env sid q a size w)).
Proof.
  intros [Hn Hb]. unfold Msg_save; simpl. split.
  - unfold ids. simpl. rewrite map_app. simpl.
    apply NoDup_app; auto.
    + repeat constructor. intros [].
    + intros x Hx [<-|[]]. apply in_map_iff in Hx as (m & Em & Hm).
      rewrite Forall_forall in Hb. specialize (Hb m Hm). lia.
  - apply Forall_app. split.
    + eapply Forall_impl; [|exact Hb]. simpl. intros; lia.
    + repeat constructor.
Qed.

Lemma wf_empty : wf_world empty_world.
Proof. split; constructor. Qed.

Lemma NoDup_app_disjoint {A} (l1 l2 : list A) a :
  NoDup (l1 ++ l2) -> In a l1 -> ~ In a l2.
Proof.
  induction l1 as [|x l1 IH]; simpl; [tauto|].
  intros Hn [<-|Ha] H2; inversion Hn as [|? ? Hx Hr]; subst.
  - apply Hx. apply in_or_app. now right.
  - now apply IH.
Qed.

(** ** Appending *)

(** catch (error) { throw error } changes nothing. *)
Lemma try_rethrow {A} (m : M A) w : try_catch m (fun e => throw e) w = m w.
Proof. unfold try_catch, throw. now destruct (m w) as [[a|e] w']. Qed.

Lemma save_run env sid q a' w :
  q <> "" -> a' <> "" ->
  saveConversation env sid q (JStr a') w
  = discardConversation sid
      (snd (Msg_save env sid q a' (String.length q + String.length a') w)).
Proof.
  intros Hq Ha. unfold saveConversation, try_catch, bind. simpl.
  apply String.eqb_neq in Hq, Ha. rewrite Hq, Ha. simpl.
  rewrite discard_run. reflexivity.
Qed.

Lemma save_ok env sid q a w w' :
  saveConversation env sid q a w = (Ok tt, w') ->
  exists a', a = JStr a' /\ q <> "" /\ a' <> "" /\
    w' = snd (discardConversation sid
                (snd (Msg_save env sid q a' (String.length q + String.length a') w))).
Proof.
  unfold saveConversation, try_catch.
  destruct (negb (truthy (JStr q)) || negb (truthy a)) eqn:E.
  - unfold throw. discriminate.
  - apply orb_false_iff in E as [Eq Ea].
    apply negb_false_iff in Eq, Ea. simpl in Eq.
    apply negb_true_iff, String.eqb_neq in Eq.
    destruct a; try (unfold throw; discriminate).
    simpl in Ea. apply negb_true_iff, String.eqb_neq in Ea.
    intros H. exists s. repeat split; auto.
    unfold bind in H. simpl in H. rewrite discard_run in *.
    simpl in *. now inversion H.
Qed.

Lemma wf_save env sid q a w :
  wf_world w -> wf_world (snd (saveConversation env sid q a w)).
Proof.
  intros Hw. unfold saveConversation. rewrite try_rethrow.
  destruct (negb (truthy (JStr q)) || negb (truthy a)); [exact Hw|].
  destruct a; try exact Hw.
  apply (wf_Msg_save env sid q s (String.length q + String.length s)) in Hw.
  apply (wf_discard sid) in Hw. exact Hw.
Qed.

(** * The claims *)

(** ** Message Store *)

(** C1 (trim invariant).  After a successful append, trim pass included,
    the sizes of the turns that remain for the session sum to at most
    1024.  The bound holds without exception: a turn whose own size
    exceeds 1024 does not remain either, so the case that the claim
    allows for never has to be used. *)
Theorem trim_invariant env sid q a w w' :
  wf_world w ->
  saveConversation env sid q a w = (Ok tt, w') ->
  total_size (session_turns sid w') <= budget /\
  Forall (fun m => msgSize m <= budget) (session_turns sid w').
Proof.
  intros Hw Hs.
  apply save_ok in Hs as (a' & -> & Hq & Ha & ->).
  set (w1 := snd (Msg_save env sid q a' (String.length q + String.length a') w)).
  assert (Hw1 : wf_world w1) by now apply wf_Msg_save.
  assert (Hsum : total_size (session_turns sid (snd (discardConversation sid w1))) <= budget).
  { rewrite (total_size_perm _ _ (discard_session sid w1 (proj1 Hw1))).
    apply (firstn_keep_count_size (newest_first sid w1) 0). lia. }
  split; [exact Hsum|].
  apply Forall_forall. intros m Hm.
  apply in_split in Hm as (l1 & l2 & E). rewrite E in Hsum.
  unfold total_size in Hsum. rewrite map_app, list_sum_app in Hsum.
  simpl in Hsum. lia.
Qed.

Lemma wf_after_600 : wf_world after_600.
Proof.
  split; vm_compute.
  - constructor; [intros [] | constructor].
  - repeat constructor.
Defined.

Lemma trim_invariant_witness :
  wf_world after_600 /\
  saveConversation (env_at 2000) "s" (letters 250) (JStr (letters 250)) after_600
  = (Ok tt, after_600_500) /\
  total_size (session_turns "s" after_600_500) <= budget /\
  Forall (fun m => msgSize m <= budget) (session_turns "s" after_600_500).
Proof.
  split; [exact wf_after_600|].
  split; [vm_compute; reflexivity|].
  apply (trim_invariant (env_at 2000) "s" (letters 250) (JStr (letters 250))
                        after_600 after_600_500).
  - exact wf_after_600.
  - vm_compute. reflexivity.
Defined.

(** C2 (trim policy).  The pass run after every append walks the session's
    turns newest first and deletes exactly the turns whose running sum,
    themselves included, exceeds 1024: what survives is the head of the
    newest-first listing, what is deleted its (older) tail, a newest turn
    that is over the budget on its own goes together with all older ones,
    and appending sizes 600 then 500 leaves only the 500 turn. *)
Theorem trim_policy sid w :
  wf_world w ->
  let w' := snd (discardConversation sid w) in
  let listing := newest_first sid w in
  let k := keep_count 0 listing in
  (forall env q a', q <> "" -> a' <> "" ->
     saveConversation env sid q (JStr a') w
     = discardConversation sid
         (snd (Msg_save env sid q a' (String.length q + String.length a') w))) /\
  fst (discardConversation sid w) = Ok tt /\
  Sorted (fun a b => (createdAt b <= createdAt a)%Z) listing /\
  Msgs w' = filter (fun m => negb (over_budget sid w m)) (Msgs w) /\
  Permutation (session_turns sid w') (firstn k listing) /\
  (forall m, In m (skipn k listing) -> ~ In m (Msgs w')) /\
  (forall m older, listing = m :: older -> budget < msgSize m ->
     session_turns sid w' = []) /\
  map msgSize (Msgs after_600) = [600] /\
  map msgSize (Msgs after_600_500) = [500].
Proof.
  intros [Hn Hb] w' listing k.
  assert (Hperm : Permutation (session_turns sid w') (firstn k listing))
    by now apply discard_session.
  split; [intros; now apply save_run|].
  split; [now rewrite discard_run|].
  split; [apply newest_first_sorted|].
  split.
  { unfold w'. rewrite discard_Msgs by assumption.
    apply filter_ext_in. intros m Hm. f_equal.
    now apply doomed_over_budget. }
  split; [exact Hperm|].
  split.
  { intros m Hm Hin.
    assert (Hnd : NoDup (firstn k listing ++ skipn k listing)).
    { rewrite firstn_skipn. apply (NoDup_map_inv _id).
      now apply newest_first_NoDup. }
    assert (Hl : In m listing).
    { rewrite <- (firstn_skipn k listing). apply in_or_app. now right. }
    apply in_newest_first in Hl as [_ Hs].
    assert (Hf : In m (firstn k listing)).
    { apply (Permutation_in _ Hperm). apply filter_In. now split. }
    exact (NoDup_app_disjoint _ _ _ Hnd Hf Hm). }
  split.
  { intros m older E Hm.
    assert (Hk : k = 0).
    { unfold k. rewrite E. simpl.
      assert (Hlt : (budget <? msgSize m)%nat = true) by now apply Nat.ltb_lt.
      now rewrite Hlt. }
    rewrite Hk in Hperm. simpl in Hperm.
    symmetry in Hperm. now apply Permutation_nil in Hperm. }
  split; vm_compute; reflexivity.
Qed.

Lemma trim_policy_witness :
  wf_world after_600_500 /\
  Msgs (snd (discardConversation "s" after_600_500))
  = filter (fun m => negb (over_budget "s" after_600_500 m)) (Msgs after_600_500).
Proof.
  assert (Hw : wf_world after_600_500).
  { split; vm_compute.
    - constructor; [intros [] | constructor].
    - repeat constructor. }
  split; [exact Hw|].
  exact (proj1 (proj2 (proj2 (proj2 (trim_policy "s" after_600_500 Hw))))).
Defined.

(** ** Conversation Assembler *)

Lemma fold_push_turn l : forall acc,
  fold_left push_turn l acc = (acc ++ flat_map turn_entries l)%list.
Proof.
  induction l as [|m l IH]; intros acc; simpl.
  - now rewrite app_nil_r.
  - rewrite IH. unfold push_turn. now rewrite <- app_assoc.
Qed.

Lemma length_turn_entries l : List.length (flat_map turn_entries l) = 2 * List.length l.
Proof. induction l as [|m l IH]; simpl; lia. Qed.

(** C9 (prompt assembly).  The prompt is the session's stored turns in
    non-decreasing creation-time order, each giving a user entry with its
    question and then an assistant entry with its answer, followed by one
    user entry with the new question; every stored turn is there. *)
Theorem prompt_assembly sid q w :
  buildConversation sid q w
  = (Ok (flat_map turn_entries (history sid w) ++ [mkEntry user q])%list, w) /\
  Sorted (fun a b => (createdAt a <= createdAt b)%Z) (history sid w) /\
  Permutation (history sid w) (session_turns sid w) /\
  List.length (flat_map turn_entries (history sid w) ++ [mkEntry user q])
  = 2 * List.length (session_turns sid w) + 1.
Proof.
  split; [|split; [|split]].
  - unfold buildConversation, bind, Msg_find_sorted, ret.
    now rewrite fold_push_turn.
  - apply history_sorted.
  - apply sort_by_perm.
  - rewrite length_app, length_turn_entries. simpl. unfold history.
    rewrite (Permutation_length (sort_by_perm asc (session_turns sid w))). lia.
Qed.

(** C10 (session ids collide).  The session id is the chat id followed by
    the sender id, so moving characters across the seam gives the same id:
    ("ab","c") and ("a","bc") are distinct pairs with one session id, and
    a message from the second pair is answered with the history of the
    first and stored in the same session. *)
Theorem session_id_collision :
  (forall a b c, session_of (a ++ b) c = session_of a (b ++ c)) /\
  ("ab", "c") <> ("a", "bc") /\
  session_of "ab" "c" = session_of "a" "bc" /\
  buildConversation (session_of "a" "bc") "more" after_hi
  = (Ok [mkEntry user "hi"; mkEntry assistant "hello"; mkEntry user "more"], after_hi) /\
  map (fun m => (sessionId m, question m))
      (Msgs (snd (webhook (env_at 2000)
                          (text_event "p2p" "a" "bc" "e2" "m2" "more") after_hi)))
  = [("abc", "hi"); ("abc", "more")].
Proof.
  split; [|split; [|split; [|split]]].
  - intros a b c. unfold session_of. induction a as [|x a IH]; simpl; congruence.
  - discriminate.
  - reflexivity.
  - vm_compute. reflexivity.
  - vm_compute. reflexivity.
Qed.

(** ** Event Dedup Ledger *)

Lemma no_event_count eid l :
  has_event eid l = false -> filter (fun e => event_id e =? eid) l = [].
Proof.
  intros H. apply filter_none. intros x Hx.
  destruct (event_id x =? eid) eqn:E; auto.
  assert (has_event eid l = true) by (apply existsb_exists; eauto).
  congruence.
Qed.

Lemma has_event_app eid l e :
  has_event eid (l ++ [e]) = has_event eid l || (event_id e =? eid).
Proof. unfold has_event. rewrite existsb_app. simpl. now rewrite orb_false_r. Qed.

(** C3 (recordIfNew).  Recording an event id that the ledger does not hold
    yet gives Inserted, recording it again gives Duplicate and leaves the
    first record as the only one for that id; a violation of the unique
    index comes back as Duplicate and is not raised, and a failure with
    any other code is raised to the caller with the ledger untouched. *)
Theorem record_twice eid c1 c2 w :
  has_event eid (Events w) = false ->
  let r1 := recordIfNew None eid c1 w in
  let r2 := recordIfNew None eid c2 (snd r1) in
  fst r1 = Ok Inserted /\
  fst r2 = Ok Duplicate /\
  Events (snd r2) = (Events w ++ [mkEvent eid c1])%list /\
  count_events eid (snd r2) = 1 /\
  (forall c w0, has_event eid (Events w0) = true ->
     recordIfNew None eid c w0 = (Ok Duplicate, w0)) /\
  (forall e c w0, error_code e <> Some 11000%N ->
     recordIfNew (Some e) eid c w0 = (Throw e, w0)).
Proof.
  intros Hnew r1 r2.
  assert (E1 : r1 = (Ok Inserted,
                     mkWorld (Msgs w) (Events w ++ [mkEvent eid c1]) (next_id w) (trace w))).
  { unfold r1, recordIfNew, try_catch, bind, Event_save. simpl.
    now rewrite Hnew. }
  assert (Hdup : forall c w0, has_event eid (Events w0) = true ->
                   recordIfNew None eid c w0 = (Ok Duplicate, w0)).
  { intros c w0 H. unfold recordIfNew, try_catch, bind, Event_save. simpl.
    now rewrite H. }
  assert (E2 : r2 = (Ok Duplicate, snd r1)).
  { unfold r2. apply Hdup. rewrite E1. simpl.
    rewrite has_event_app. simpl. now rewrite String.eqb_refl, orb_true_r. }
  rewrite E2, E1. simpl.
  repeat split; auto.
  - unfold count_events. simpl. rewrite filter_app, no_event_count by assumption.
    simpl. now rewrite String.eqb_refl.
  - intros e c w0 He. unfold recordIfNew, try_catch, bind, Event_save. simpl.
    destruct (error_code e) as [n|] eqn:En; [|reflexivity].
    destruct (N.eq_dec n 11000) as [->|Hn]; [congruence|].
    destruct n as [|p]; [reflexivity|].
    repeat (destruct p as [p|p|]; try reflexivity).
    congruence.
Qed.

Lemma record_twice_witness :
  has_event "e1" (Events empty_world) = false /\
  fst (recordIfNew None "e1" None empty_world) = Ok Inserted /\
  fst (recordIfNew None "e1" (Some "hi")
         (snd (recordIfNew None "e1" None empty_world))) = Ok Duplicate.
Proof.
  split; [reflexivity|].
  pose proof (record_twice "e1" None (Some "hi") empty_world eq_refl) as H.
  simpl in H. split; [exact (proj1 H) | exact (proj1 (proj2 H))].
Defined.

(** ** Downstream Query Client *)

Lemma get_prop_truthy result :
  truthy result = true -> get_prop result "text" = inr (text_field result).
Proof. destruct result; simpl; intros H; try reflexivity; discriminate. Qed.

Lemma queryFlowise_run env q sid w :
  exists data,
    Teams.queryFlowise env q sid w
    = (match flowise env with
       | NetworkFailure msg => Throw (FetchError msg)
       | Response ok st json =>
           if negb ok then Throw (JsError ("Flowise API returned an error: " ++ st))
           else match json with
                | None => Throw (FetchError "invalid-json")
                | Some result =>
                    if truthy result && truthy (text_field result)
                    then Ok (text_field result)
                    else Throw (JsError "Invalid response from Flowise API")
                end
       end,
       mkWorld (Msgs w) (Events w) (next_id w) (trace w ++ [Fetched data])).
Proof.
  eexists. unfold Teams.queryFlowise. rewrite try_rethrow.
  unfold bind, emit. simpl.
  destruct (flowise env) as [msg|ok st [result|]]; try reflexivity;
    destruct ok; simpl; try reflexivity.
  destruct (truthy result) eqn:T; simpl; [|reflexivity].
  rewrite (get_prop_truthy result T). simpl.
  destruct (truthy (text_field result)); reflexivity.
Qed.

Lemma query_run env data w :
  query env data w
  = (match flowise env with
     | NetworkFailure msg => Throw (FetchError msg)
     | Response _ _ None => Throw (FetchError "invalid-json")
     | Response _ _ (Some result) => Ok result
     end,
     mkWorld (Msgs w) (Events w) (next_id w) (trace w ++ [Fetched data])).
Proof.
  unfold query. rewrite try_rethrow. unfold bind, emit. simpl.
  destruct (flowise env) as [msg|ok st [result|]]; reflexivity.
Qed.

(** C6, as the code has it.  queryFlowise of the secondary variant fails
    exactly on an upstream error in the contract's sense (unreachable
    endpoint, non-success status, body that is not JSON or has no truthy
    text field) and otherwise returns the text.  query of the primary
    variant looks at neither the status nor the text field: it fails only
    when the request fails or the body is not JSON, and otherwise returns
    the decoded body. *)
Theorem downstream_query_failure env w :
  (forall q sid,
     ((exists e, fst (Teams.queryFlowise env q sid w) = Throw e)
      <-> spec_upstream_error (flowise env) = true) /\
     (spec_upstream_error (flowise env) = false ->
      exists st result,
        flowise env = Response true st (Some result) /\
        fst (Teams.queryFlowise env q sid w) = Ok (text_field result))) /\
  (forall data,
     ((exists e, fst (query env data w) = Throw e)
      <-> query_rejects (flowise env) = true) /\
     (query_rejects (flowise env) = false ->
      exists ok st result,
        flowise env = Response ok st (Some result) /\
        fst (query env data w) = Ok result)).
Proof.
  split.
  - intros q sid. destruct (queryFlowise_run env q sid w) as [data ->]. simpl.
    destruct (flowise env) as [msg|ok st [result|]]; simpl.
    + split; [split; eauto | discriminate].
    + destruct ok; simpl.
      * destruct (truthy result && truthy (text_field result)); simpl;
          (split; [split; [intros [e He]; try discriminate; auto | intros; try discriminate; eauto]|]);
          intros; try discriminate; eauto.
      * split; [split; eauto | discriminate].
    + destruct ok; simpl; (split; [split; eauto | discriminate]).
  - intros data. rewrite query_run. simpl.
    destruct (flowise env) as [msg|ok st [result|]]; simpl.
    + split; [split; eauto | discriminate].
    + split; [split; [intros [e He]; discriminate | discriminate] | eauto].
    + split; [split; eauto | discriminate].
Qed.

Lemma downstream_query_failure_witness :
  spec_upstream_error (flowise (env_at 1000)) = false /\
  exists st result,
    flowise (env_at 1000) = Response true st (Some result) /\
    fst (Teams.queryFlowise (env_at 1000) (JStr "hi") (JStr "t1") empty_world)
    = Ok (text_field result).
Proof.
  split; [reflexivity|].
  exact (proj2 (proj1 (downstream_query_failure (env_at 1000) empty_world)
                      (JStr "hi") (JStr "t1")) eq_refl).
Defined.

(** C6 as stated fails for the primary variant: the endpoint answers with
    a non-success status and no text field, and query returns normally. *)
Lemma query_overlooks_status :
  ~ (forall env data w,
       spec_upstream_error (flowise env) = true ->
       exists e, fst (query env data w) = Throw e).
Proof.
  intros H.
  destruct (H (env_with failed_status) (JObj []) empty_world eq_refl) as [e He].
  vm_compute in He. discriminate.
Qed.

(** ** The secondary webhook *)

Lemma teams_run env body text sid w :
  get_prop body "text" = inr text ->
  get_prop body "sessionId" = inr sid ->
  truthy text && truthy sid = true ->
  Teams.teams_webhook env body w
  = (match fst (Teams.queryFlowise env text sid w) with
     | Ok answer => Ok (Teams.mkHttp 200 (JObj [("message", answer)]))
     | Throw _ => Ok server_error
     end,
     snd (Teams.queryFlowise env text sid w)).
Proof.
  intros Ht Hs H. unfold Teams.teams_webhook, bind at 1. rewrite Ht. simpl lift.
  unfold ret at 1. unfold bind at 1. rewrite Hs. simpl lift. unfold ret at 1.
  rewrite <- negb_andb, H. cbn [negb]. cbv beta iota.
  unfold try_catch, bind.
  destruct (Teams.queryFlowise env text sid w) as [[answer|e] w']; reflexivity.
Qed.

Lemma queryFlowise_throws env q sid w :
  spec_upstream_error (flowise env) = true ->
  exists e data,
    Teams.queryFlowise env q sid w
    = (Throw e, mkWorld (Msgs w) (Events w) (next_id w) (trace w ++ [Fetched data])).
Proof.
  intros H. destruct (queryFlowise_run env q sid w) as [data ->].
  destruct (flowise env) as [msg|ok st [result|]]; simpl in *.
  - eauto.
  - destruct ok; simpl in *; [|eauto].
    destruct (truthy result && truthy (text_field result)); [discriminate|eauto].
  - destruct ok; simpl in *; eauto.
Qed.

(** C8 (Teams endpoint).  With [text] and [sessionId] read from the flat
    body: if either is missing (or otherwise falsy) the answer is 400 with
    an error body and the endpoint is not called; otherwise the answer is
    200 with {message: generated text} when the query returns, and 500
    with an error body when it fails. *)
Theorem teams_responses env body text sid w :
  get_prop body "text" = inr text ->
  get_prop body "sessionId" = inr sid ->
  let r := Teams.teams_webhook env body w in
  (text = JUndefined \/ sid = JUndefined -> r = (Ok bad_request, w)) /\
  (truthy text && truthy sid = false -> r = (Ok bad_request, w)) /\
  (truthy text && truthy sid = true ->
   (forall answer w', Teams.queryFlowise env text sid w = (Ok answer, w') ->
      r = (Ok (Teams.mkHttp 200 (JObj [("message", answer)])), w')) /\
   (forall e w', Teams.queryFlowise env text sid w = (Throw e, w') ->
      r = (Ok server_error, w'))).
Proof.
  intros Ht Hs r.
  assert (Hbad : truthy text && truthy sid = false -> r = (Ok bad_request, w)).
  { intros H. unfold r, Teams.teams_webhook, bind. rewrite Ht, Hs. simpl.
    rewrite <- negb_andb, H. reflexivity. }
  split; [|split; [exact Hbad|]].
  - intros [-> | ->]; apply Hbad; simpl; auto using andb_false_r.
  - intros H. unfold r. rewrite (teams_run env body text sid w Ht Hs H).
    split; intros x w' E; rewrite E; reflexivity.
Qed.

Lemma teams_responses_witness :
  get_prop teams_body "text" = inr (JStr "hi") /\
  get_prop teams_body "sessionId" = inr (JStr "t1") /\
  Teams.teams_webhook (env_at 1000) teams_body empty_world
  = (Ok (Teams.mkHttp 200 (JObj [("message", JStr "hello")])),
     snd (Teams.queryFlowise (env_at 1000) (JStr "hi") (JStr "t1") empty_world)) /\
  Teams.teams_webhook (env_with failed_status) teams_body empty_world
  = (Ok server_error,
     snd (Teams.queryFlowise (env_with failed_status) (JStr "hi") (JStr "t1") empty_world)).
Proof.
  split; [reflexivity|]. split; [reflexivity|]. split.
  - apply (proj1 (proj2 (proj2 (teams_responses (env_at 1000) teams_body
                                   (JStr "hi") (JStr "t1") empty_world eq_refl eq_refl))
                        eq_refl)).
    reflexivity.
  - apply (proj2 (proj2 (proj2 (teams_responses (env_with failed_status) teams_body
                                   (JStr "hi") (JStr "t1") empty_world eq_refl eq_refl))
                        eq_refl)
                 (JsError "Flowise API returned an error: Internal Server Error")).
    reflexivity.
Defined.

(** ** The ledger during a request *)

Section LedgerStable.
Variable eid : string.

Lemma ls_ret {A} (a : A) : ledger_stable eid (ret a).
Proof. now intros w _. Qed.

Lemma ls_throw {A} e : ledger_stable eid (@throw A e).
Proof. now intros w _. Qed.

Lemma ls_lift {A} (r : exn + A) : ledger_stable eid (lift r).
Proof. destruct r; [apply ls_throw | apply ls_ret]. Qed.

Lemma ls_bind {A B} (m : M A) (k : A -> M B) :
  ledger_stable eid m -> (forall a, ledger_stable eid (k a)) ->
  ledger_stable eid (bind m k).
Proof.
  intros Hm Hk w Hw. unfold bind. specialize (Hm w Hw).
  destruct (m w) as [[a|e] w1]; simpl in *; auto.
  rewrite <- Hm. apply Hk. now rewrite Hm.
Qed.

Lemma ls_try {A} (m : M A) h :
  ledger_stable eid m -> (forall e, ledger_stable eid (h e)) ->
  ledger_stable eid (try_catch m h).
Proof.
  intros Hm Hh w Hw. unfold try_catch. specialize (Hm w Hw).
  destruct (m w) as [[a|e] w1]; simpl in *; auto.
  rewrite <- Hm. apply Hh. now rewrite Hm.
Qed.

Lemma ls_emit e : ledger_stable eid (emit e).
Proof. now intros w _. Qed.

Lemma ls_for_of {A} (l : list A) body :
  (forall c, ledger_stable eid (body c)) -> ledger_stable eid (for_of l body).
Proof.
  intros Hb. induction l as [|c l IH]; simpl.
  - apply ls_ret.
  - apply ls_bind; auto.
Qed.

Lemma ls_Event_save fault c : ledger_stable eid (Event_save fault (mkEvent eid c)).
Proof.
  intros w Hw. unfold Event_save. destruct fault; simpl; auto.
  now rewrite Hw.
Qed.

Lemma ls_reply env mid text : ledger_stable eid (reply env mid text).
Proof.
  unfold reply. apply ls_try; [|intros; apply ls_ret].
  destruct (reply_fault env); [apply ls_throw | apply ls_emit].
Qed.

Lemma ls_discard sid : ledger_stable eid (discardConversation sid).
Proof.
  unfold discardConversation. apply ls_bind; [now intros w _|].
  intros messages. apply ls_for_of. intros c.
  destruct (budget <? snd c)%nat; [now intros w _ | apply ls_ret].
Qed.

Lemma ls_save env sid q a : ledger_stable eid (saveConversation env sid q a).
Proof.
  unfold saveConversation. apply ls_try; [|intros; apply ls_throw].
  destruct (negb (truthy (JStr q)) || negb (truthy a)); [apply ls_throw|].
  destruct a; try apply ls_throw.
  apply ls_bind; [now intros w _ | intros; apply ls_discard].
Qed.

Lemma ls_query env data : ledger_stable eid (query env data).
Proof.
  unfold query. apply ls_try; [|intros; apply ls_throw].
  apply ls_bind; [apply ls_emit|]. intros _.
  destruct (flowise env) as [msg|ok st [result|]];
    try apply ls_throw; apply ls_ret.
Qed.

Lemma ls_cmdProcess env action sid mid :
  ledger_stable eid (cmdProcess env action sid mid).
Proof.
  unfold cmdProcess. apply ls_bind; [|intros; apply ls_ret].
  unfold cmdHelp, cmdClear, clearConversation.
  destruct (action =? "/help"); [apply ls_reply|].
  destruct (action =? "/clear"); [|apply ls_reply].
  apply ls_bind; [now intros w _ | intros; apply ls_reply].
Qed.

(** Once the dedup step has recorded the event id, handleReply cannot
    add to the ledger: its own save is refused by the unique index. *)
Lemma ls_handleReply env userInput sid mid :
  ledger_stable eid (handleReply env userInput sid mid eid).
Proof.
  unfold handleReply.
  apply ls_bind; [apply ls_lift|]. intros t.
  apply ls_bind; [destruct t; try apply ls_throw; apply ls_ret|]. intros text.
  destruct (startsWith _ "/"); [apply ls_cmdProcess|].
  apply ls_bind; [now intros w _|]. intros prompt.
  apply ls_bind.
  { apply ls_try; [|intros; apply ls_ret].
    apply ls_bind; [apply ls_query | intros; apply ls_lift]. }
  intros answer.
  apply ls_bind; [apply ls_save|]. intros _.
  apply ls_bind; [apply ls_reply|]. intros _.
  apply ls_try.
  - apply ls_bind; [apply ls_Event_save | intros; apply ls_ret].
  - intros e. destruct (error_code e) as [n|]; [|apply ls_throw].
    destruct n as [|p]; [apply ls_throw|].
    repeat (destruct p as [p|p|]; try apply ls_throw).
    apply ls_ret.
Qed.
End LedgerStable.

Lemma recordIfNew_cases fault eid c w :
  (recordIfNew fault eid c w
   = (Ok Inserted,
      mkWorld (Msgs w) (Events w ++ [mkEvent eid c]) (next_id w) (trace w))) \/
  (exists r, recordIfNew fault eid c w = (r, w) /\ r <> Ok Inserted).
Proof.
  unfold recordIfNew, try_catch, bind, Event_save. simpl.
  destruct fault as [e|].
  - right. destruct (error_code e) as [n|];
      [|eexists; split; [reflexivity|discriminate]].
    destruct n as [|p]; [eexists; split; [reflexivity|discriminate]|].
    repeat (destruct p as [p|p|];
            try (eexists; split; [reflexivity|discriminate])).
  - destruct (has_event eid (Events w)).
    + right. eexists; split; [reflexivity|discriminate].
    + left. reflexivity.
Qed.

(** Whatever the request, the webhook adds no ledger record with content:
    the only record it can add is the bare one of the dedup step. *)
Lemma webhook_never_stores_content env params w e :
  In e (Events (snd (webhook env params w))) ->
  In e (Events w) \/ content e = None.
Proof.
  unfold webhook.
  destruct (truthy (encrypt params)); [now left|].
  destruct (strict_eq (type params) "url_verification"); [now left|].
  destruct (header params) as [hdr|]; [|now left].
  destruct (debug params); [now left|].
  destruct (event_type hdr =? "im.message.receive_v1"); [|now left].
  destruct (event params) as [ev|]; [|now left].
  unfold bind at 1. unfold Event_findOne at 1.
  destruct (find _ (Events w)); [now left|].
  unfold bind at 1.
  destruct (recordIfNew_cases (dedup_fault env) (hdr_event_id hdr) None w)
    as [E|(r & E & Hr)]; rewrite E.
  - set (w1 := mkWorld (Msgs w) (Events w ++ [mkEvent (hdr_event_id hdr) None])
                       (next_id w) (trace w)).
    assert (H1 : has_event (hdr_event_id hdr) (Events w1) = true).
    { unfold w1; simpl. rewrite has_event_app. simpl.
      now rewrite String.eqb_refl, orb_true_r. }
    assert (Hs : forall (m : M jsval),
               ledger_stable (hdr_event_id hdr) m ->
               In e (Events (snd (m w1))) -> In e (Events w) \/ content e = None).
    { intros m Hm Hin. rewrite (Hm w1 H1) in Hin. unfold w1 in Hin; simpl in Hin.
      apply in_app_or in Hin as [Hin|[<-|[]]]; auto. }
    assert (Hh : ledger_stable (hdr_event_id hdr)
                   (userInput <- JSON_parse (msg_content ev) ;;
                    handleReply env userInput
                      (session_of (chat_id ev) (sender_user_id ev))
                      (message_id ev) (hdr_event_id hdr))).
    { apply ls_bind; [|intros; apply ls_handleReply].
      unfold JSON_parse. destruct (msg_content ev); [apply ls_ret | apply ls_throw]. }
    destruct (chat_type ev =? "p2p").
    + destruct (negb (message_type ev =? "text")).
      * apply Hs. apply ls_bind; [apply ls_reply | intros; apply ls_ret].
      * apply Hs, Hh.
    + destruct (chat_type ev =? "group"); [apply Hs, Hh|].
      apply Hs, ls_ret.
  - destruct r as [[|]|x]; simpl; auto. congruence.
Qed.

(** ** The primary webhook *)

(** C4 at a fresh direct text message "hi" with event id "e1": the turn is
    stored and the reply "hello" is sent, but the save that carries the
    text is refused by the unique index (the dedup step has just stored
    "e1"), so the ledger record of "e1" stays without content and the
    handler answers {code: 1, message: "Duplicate event ID"}. *)
Theorem content_write_is_refused :
  let r := webhook (env_at 1000) (text_event "p2p" "ab" "c" "e1" "m1" "hi") empty_world in
  fst r = Ok (obj_code_message 1 "Duplicate event ID") /\
  Events (snd r) = [mkEvent "e1" None] /\
  replies (snd r) = [Replied "m1" (JStr "hello")] /\
  map question (Msgs (snd r)) = ["hi"].
Proof. vm_compute. repeat split. Qed.

(** In a direct chat a message that is not text gets the fixed reply and
    the endpoint is not called. *)
Lemma p2p_unsupported env hdr ev params w :
  truthy (encrypt params) = false ->
  strict_eq (type params) "url_verification" = false ->
  header params = Some hdr -> debug params = false ->
  event_type hdr = "im.message.receive_v1" ->
  event params = Some ev ->
  has_event (hdr_event_id hdr) (Events w) = false ->
  dedup_fault env = None -> reply_fault env = false ->
  chat_type ev = "p2p" -> message_type ev <> "text" ->
  webhook env params w
  = (Ok (obj_code 0),
     mkWorld (Msgs w) (Events w ++ [mkEvent (hdr_event_id hdr) None]) (next_id w)
             (trace w ++ [Replied (message_id ev) (JStr unsupported)])).
Proof.
  intros He Ht Hh Hd Hty Hev Hnew Hf Hr Hc Hm.
  unfold webhook. rewrite He, Ht, Hh, Hd, Hty, Hev, Hc. simpl.
  apply String.eqb_neq in Hm. rewrite Hm. simpl.
  unfold bind, Event_findOne.
  assert (Hfind : find (fun e => event_id e =? hdr_event_id hdr) (Events w) = None).
  { destruct (find _ (Events w)) eqn:F; auto.
    apply find_some in F as [Hin Hx].
    assert (has_event (hdr_event_id hdr) (Events w) = true)
      by (apply existsb_exists; eauto).
    congruence. }
  rewrite Hfind.
  unfold recordIfNew, try_catch, bind, Event_save. rewrite Hf. simpl. rewrite Hnew.
  unfold reply, try_catch. rewrite Hr. reflexivity.
Qed.

(** In a group chat the message type is never looked at. *)
Lemma group_ignores_message_type env w eid mid chat mtype mtype' c sender :
  let request t :=
    mkParams JUndefined JUndefined JUndefined
             (Some (mkHeader "im.message.receive_v1" eid))
             (Some (mkMessageEvent mid chat t "group" c sender)) false in
  webhook env (request mtype) w = webhook env (request mtype') w.
Proof. reflexivity. Qed.

(** C5 at an image sent to a group chat: no "unsupported format" reply is
    sent; the handler goes on to read the text of the content, which an
    image does not have, and ends with a TypeError. *)
Theorem group_image_not_rejected :
  let r := webhook (env_at 1000) group_image empty_world in
  fst r = Throw TypeError /\
  replies (snd r) = [] /\
  fst (webhook (env_at 1000)
         (mkParams JUndefined JUndefined JUndefined
            (Some (mkHeader "im.message.receive_v1" "e1"))
            (Some (mkMessageEvent "m1" "oc_1" "image" "p2p"
                                  (Some (JObj [("image_key", JStr "img_v2_1")])) "u1"))
            false) empty_world)
  = Ok (obj_code 0).
Proof. vm_compute. repeat split. Qed.

(** ** Downstream failures *)

Lemma fetches_snoc w data :
  fetches (mkWorld (Msgs w) (Events w) (next_id w) (trace w ++ [Fetched data]))
  = fetches w + 1.
Proof. unfold fetches; simpl. rewrite filter_app, length_app. reflexivity. Qed.

Lemma replies_snoc_fetch w data :
  replies (mkWorld (Msgs w) (Events w) (next_id w) (trace w ++ [Fetched data]))
  = replies w.
Proof. unfold replies; simpl. rewrite filter_app. simpl. apply app_nil_r. Qed.

(** handleReply when the query rejects: one call, then the append refuses
    the missing answer. *)
Lemma handleReply_query_rejects env userInput text sid mid eid w :
  get_prop userInput "text" = inr (JStr text) ->
  startsWith (trim (trim (replace "@_user_1" "" text))) "/" = false ->
  query_rejects (flowise env) = true ->
  exists data,
    handleReply env userInput sid mid eid w
    = (Throw missing_answer,
       mkWorld (Msgs w) (Events w) (next_id w) (trace w ++ [Fetched data])).
Proof.
  intros Ht Hc Hq. eexists.
  unfold handleReply. rewrite Ht.
  unfold bind at 1. simpl lift. unfold ret at 1.
  unfold bind at 1. simpl as_string. unfold ret at 1.
  rewrite Hc.
  unfold bind at 1. unfold buildConversation, bind at 1, Msg_find_sorted, ret at 1.
  unfold bind at 1. unfold try_catch at 1. unfold bind at 1.
  rewrite query_run.
  assert (Hsave : forall w0, saveConversation env sid (trim (replace "@_user_1" "" text))
                               JUndefined w0 = (Throw missing_answer, w0)).
  { intros w0. unfold saveConversation. rewrite try_rethrow.
    simpl truthy. simpl negb. rewrite orb_true_r. reflexivity. }
  destruct (flowise env) as [msg|ok st [result|]]; try discriminate;
    unfold ret at 1; unfold bind at 1; rewrite Hsave; reflexivity.
Qed.

(** C7, as the code has it.  When the downstream query fails it is not
    retried: the endpoint has been called once.  The secondary endpoint
    catches the failure and answers 500 with a generic error body.  In the
    primary conversational path handleReply catches the failure and does
    not pass it on; the answer is then missing, the append refuses it, and
    the handler ends with that error: no reply is sent, no turn is stored
    and the ledger is not written. *)
Theorem downstream_failure_handling env w :
  (forall body text sid,
     get_prop body "text" = inr text ->
     get_prop body "sessionId" = inr sid ->
     truthy text && truthy sid = true ->
     spec_upstream_error (flowise env) = true ->
     let r := Teams.teams_webhook env body w in
     fst r = Ok server_error /\ fetches (snd r) = fetches w + 1) /\
  (forall userInput text sid mid eid,
     get_prop userInput "text" = inr (JStr text) ->
     startsWith (trim (trim (replace "@_user_1" "" text))) "/" = false ->
     query_rejects (flowise env) = true ->
     let r := handleReply env userInput sid mid eid w in
     fst r = Throw missing_answer /\
     fetches (snd r) = fetches w + 1 /\
     replies (snd r) = replies w /\
     Msgs (snd r) = Msgs w /\
     Events (snd r) = Events w).
Proof.
  split.
  - intros body text sid Ht Hs Htr Hup r.
    destruct (queryFlowise_throws env text sid w Hup) as (e & data & E).
    unfold r. rewrite (teams_run env body text sid w Ht Hs Htr), E. simpl.
    split; [reflexivity | apply fetches_snoc].
  - intros userInput text sid mid eid Ht Hc Hq r.
    destruct (handleReply_query_rejects env userInput text sid mid eid w Ht Hc Hq)
      as [data Hr].
    unfold r. rewrite Hr. simpl.
    repeat split; [apply fetches_snoc | apply replies_snoc_fetch].
Qed.

Lemma downstream_failure_handling_witness :
  fst (Teams.teams_webhook (env_with failed_status) teams_body empty_world)
  = Ok server_error /\
  fst (handleReply (env_with (NetworkFailure "ECONNREFUSED"))
                   (JObj [("text", JStr "hi")]) "abc" "m1" "e1" empty_world)
  = Throw missing_answer.
Proof.
  split.
  - exact (proj1 (proj1 (downstream_failure_handling (env_with failed_status) empty_world)
                        teams_body (JStr "hi") (JStr "t1")
                        eq_refl eq_refl eq_refl eq_refl)).
  - exact (proj1 (proj2 (downstream_failure_handling
                           (env_with (NetworkFailure "ECONNREFUSED")) empty_world)
                        (JObj [("text", JStr "hi")]) "hi" "abc" "m1" "e1"
                        eq_refl eq_refl eq_refl)).
Defined.

(** C7 as stated fails in the primary variant: with the endpoint
    unreachable, a fresh direct text message ends in the append's error
    (not in a response, and not in the query's own failure), and nothing
    is sent to the user. *)
Lemma primary_failure_not_surfaced :
  let r := webhook (env_with (NetworkFailure "ECONNREFUSED"))
                   (text_event "p2p" "ab" "c" "e1" "m1" "hi") empty_world in
  fst r = Throw missing_answer /\
  replies (snd r) = [] /\
  fetches (snd r) = 1.
Proof. vm_compute. repeat split. Qed.


(** * Further properties of the code *)

(** ** clearConversation *)

Lemma filter_session_other sid sid' (f : Msg -> bool) l :
  sid' <> sid ->
  (forall m, in_session sid m = false -> f m = true) ->
  filter (in_session sid') (filter f l) = filter (in_session sid') l.
Proof.
  intros Hne Hf. rewrite filter_comm. apply filter_all.
  intros m Hm. apply filter_In in Hm as [_ Hm]. apply Hf.
  unfold in_session in *. apply String.eqb_eq in Hm. subst sid'.
  now apply String.eqb_neq.
Qed.

(** clearConversation removes every turn of the session and nothing else:
    the session's next prompt holds the new question only, the turns of
    any other session stay as they are, and clearing again changes
    nothing. *)
Theorem clear_session sid q w :
  let w' := snd (clearConversation sid w) in
  fst (clearConversation sid w) = Ok tt /\
  session_turns sid w' = [] /\
  (forall sid', sid' <> sid -> session_turns sid' w' = session_turns sid' w) /\
  buildConversation sid q w' = (Ok [mkEntry user q], w') /\
  clearConversation sid w' = (Ok tt, w').
Proof.
  assert (Hnone : forall l, filter (in_session sid)
                              (filter (fun m => negb (in_session sid m)) l) = []).
  { intros l. apply filter_none. intros m Hm.
    apply filter_In in Hm as [_ Hm]. now apply negb_true_iff in Hm. }
  simpl. repeat split.
  - unfold session_turns; simpl. apply Hnone.
  - intros sid' Hne. unfold session_turns; simpl.
    apply (filter_session_other sid); auto. intros m ->. reflexivity.
  - unfold buildConversation, bind, Msg_find_sorted, ret; simpl.
    now rewrite Hnone.
  - unfold clearConversation, Msg_deleteMany; simpl. f_equal. f_equal.
    apply filter_all. intros m Hm. now apply filter_In in Hm as [_ Hm].
Qed.

Lemma clear_session_witness :
  "t" <> "s" /\
  session_turns "s" (snd (clearConversation "s" after_600_500)) = [] /\
  session_turns "t" (snd (clearConversation "s" after_600_500))
  = session_turns "t" after_600_500.
Proof.
  split; [discriminate|].
  pose proof (clear_session "s" "q" after_600_500) as H.
  split; [exact (proj1 (proj2 H))|].
  apply (proj1 (proj2 (proj2 H))). discriminate.
Defined.

(** ** saveConversation and the trim pass *)

(** An append with an empty question, or with an answer that is missing
    or empty, is refused before anything is written. *)
Theorem save_rejects_missing env sid q a w :
  q = "" \/ truthy a = false ->
  saveConversation env sid q a w = (Throw missing_answer, w).
Proof.
  intros H. unfold saveConversation. rewrite try_rethrow.
  assert (E : negb (truthy (JStr q)) || negb (truthy a) = true).
  { destruct H as [-> | ->]; simpl; auto using orb_true_r. }
  now rewrite E.
Qed.

Lemma save_rejects_missing_witness :
  truthy JUndefined = false /\
  saveConversation (env_at 1000) "s" "hi" JUndefined after_600
  = (Throw missing_answer, after_600).
Proof.
  split; [reflexivity|].
  apply (save_rejects_missing (env_at 1000) "s" "hi" JUndefined after_600).
  right. reflexivity.
Defined.

Lemma doomed_nil l : forall acc,
  acc + total_size l <= budget -> doomed acc l = [].
Proof.
  induction l as [|m l IH]; intros acc H; [reflexivity|].
  rewrite doomed_cons.
  unfold total_size in H; simpl in H. fold (total_size l) in H.
  assert (E : (budget <? acc + msgSize m)%nat = false) by (apply Nat.ltb_ge; lia).
  rewrite E. simpl. apply IH. lia.
Qed.

Lemma discard_noop sid w :
  total_size (session_turns sid w) <= budget ->
  discardConversation sid w = (Ok tt, w).
Proof.
  intros H. rewrite discard_run, doomed_nil.
  - simpl. now rewrite set_Msgs_id.
  - rewrite (total_size_perm _ _ (newest_first_perm sid w)). simpl. exact H.
Qed.

(** A session that is within the budget is left alone by the trim pass. *)
Theorem trim_within_budget sid w :
  total_size (session_turns sid w) <= budget ->
  discardConversation sid w = (Ok tt, w).
Proof. apply discard_noop. Qed.

Lemma trim_within_budget_witness :
  total_size (session_turns "s" after_600) <= budget /\
  discardConversation "s" after_600 = (Ok tt, after_600).
Proof.
  assert (H : total_size (session_turns "s" after_600) <= budget).
  { apply Nat.leb_le. vm_compute. reflexivity. }
  split; [exact H | exact (trim_within_budget "s" after_600 H)].
Defined.

(** The trim pass is idempotent: a second pass finds nothing to delete. *)
Theorem trim_idempotent sid w :
  wf_world w ->
  discardConversation sid (snd (discardConversation sid w))
  = (Ok tt, snd (discardConversation sid w)).
Proof.
  intros [Hn _]. apply discard_noop.
  rewrite (total_size_perm _ _ (discard_session sid w Hn)).
  apply (firstn_keep_count_size (newest_first sid w) 0). lia.
Qed.

Lemma trim_idempotent_witness :
  wf_world after_600_500 /\
  discardConversation "s" (snd (discardConversation "s" after_600_500))
  = (Ok tt, snd (discardConversation "s" after_600_500)).
Proof.
  assert (Hw : wf_world after_600_500).
  { split; vm_compute.
    - constructor; [intros [] | constructor].
    - repeat constructor. }
  split; [exact Hw | exact (trim_idempotent "s" after_600_500 Hw)].
Defined.

Lemma over_budget_other sid w m : in_session sid m = false -> over_budget sid w m = false.
Proof. intros H. unfold over_budget. now rewrite H. Qed.

Lemma discard_other_session sid sid' w :
  NoDup (ids (Msgs w)) -> sid' <> sid ->
  session_turns sid' (snd (discardConversation sid w)) = session_turns sid' w.
Proof.
  intros Hn Hne. unfold session_turns. rewrite discard_Msgs by assumption.
  transitivity (filter (in_session sid')
                       (filter (fun m => negb (over_budget sid w m)) (Msgs w))).
  - f_equal. apply filter_ext_in.
    intros m Hm. f_equal. now apply doomed_over_budget.
  - apply (filter_session_other sid); auto.
    intros m Hm. now rewrite over_budget_other.
Qed.

(** An append to one session, trim pass included, never touches the turns
    of another session. *)
Theorem append_spares_other_sessions env sid sid' q a w :
  wf_world w -> sid' <> sid ->
  session_turns sid' (snd (saveConversation env sid q a w)) = session_turns sid' w.
Proof.
  intros Hw Hne. unfold saveConversation. rewrite try_rethrow.
  destruct (negb (truthy (JStr q)) || negb (truthy a)); [reflexivity|].
  destruct a; try reflexivity.
  set (w1 := snd (Msg_save env sid q s (String.length q + String.length s) w)).
  change (session_turns sid' (snd (discardConversation sid w1)) = session_turns sid' w).
  rewrite discard_other_session; auto.
  - unfold session_turns, w1; simpl. rewrite filter_app. simpl.
    unfold in_session at 2; simpl.
    assert (E : (sid =? sid') = false) by (apply String.eqb_neq; congruence).
    rewrite E. apply app_nil_r.
  - apply (wf_Msg_save env sid q s (String.length q + String.length s) w Hw).
Qed.

Lemma append_spares_other_sessions_witness :
  wf_world after_600 /\ "s" <> "t" /\
  session_turns "s" (snd (saveConversation (env_at 2000) "t" (letters 700)
                                           (JStr (letters 700)) after_600))
  = session_turns "s" after_600.
Proof.
  split; [exact wf_after_600|]. split; [discriminate|].
  apply append_spares_other_sessions; [exact wf_after_600 | discriminate].
Defined.

Lemma sort_desc_newest x l :
  (forall m, In m l -> (createdAt m < createdAt x)%Z) ->
  sort_by desc (l ++ [x]) = x :: sort_by desc l.
Proof.
  induction l as [|a l IH]; intros H; [reflexivity|].
  simpl. rewrite IH by (intros m Hm; apply H; now right).
  simpl. unfold desc at 1.
  assert (E : (createdAt x <=? createdAt a)%Z = false).
  { apply Z.leb_gt. apply H. now left. }
  now rewrite E.
Qed.

Lemma newest_first_after_insert env sid q a w :
  (forall m, In m (session_turns sid w) -> (createdAt m < now env)%Z) ->
  newest_first sid
    (snd (Msg_save env sid q a (String.length q + String.length a) w))
  = new_turn env sid q a w :: newest_first sid w.
Proof.
  intros H. unfold newest_first, session_turns; simpl.
  rewrite filter_app. simpl. unfold in_session at 2; simpl.
  rewrite String.eqb_refl.
  apply (sort_desc_newest (new_turn env sid q a w)). exact H.
Qed.

Lemma keep_count_head m l :
  keep_count 0 (m :: l)
  = if (budget <? msgSize m)%nat then 0 else S (keep_count (msgSize m) l).
Proof. reflexivity. Qed.

(** With a clock that has moved on since the session's last turn, an
    exchange of at most 1024 characters is still in the session after its
    own append. *)
Theorem newest_turn_kept env sid q a w :
  wf_world w -> q <> "" -> a <> "" ->
  (forall m, In m (session_turns sid w) -> (createdAt m < now env)%Z) ->
  String.length q + String.length a <= budget ->
  fst (saveConversation env sid q (JStr a) w) = Ok tt /\
  In (new_turn env sid q a w)
     (session_turns sid (snd (saveConversation env sid q (JStr a) w))).
Proof.
  intros Hw Hq Ha Hclock Hsize. rewrite save_run by assumption.
  set (w1 := snd (Msg_save env sid q a (String.length q + String.length a) w)).
  split; [now rewrite discard_run|].
  assert (Hw1 : wf_world w1) by now apply wf_Msg_save.
  apply (Permutation_in _ (Permutation_sym (discard_session sid w1 (proj1 Hw1)))).
  unfold w1. rewrite newest_first_after_insert by assumption.
  rewrite keep_count_head.
  assert (E : (budget <? msgSize (new_turn env sid q a w))%nat = false).
  { apply Nat.ltb_ge. simpl. exact Hsize. }
  rewrite E. now left.
Qed.

Lemma newest_turn_kept_witness :
  fst (saveConversation (env_at 2000) "s" (letters 250) (JStr (letters 250)) after_600)
  = Ok tt /\
  In (new_turn (env_at 2000) "s" (letters 250) (letters 250) after_600)
     (session_turns "s"
        (snd (saveConversation (env_at 2000) "s" (letters 250) (JStr (letters 250))
                               after_600))).
Proof.
  apply newest_turn_kept.
  - exact wf_after_600.
  - discriminate.
  - discriminate.
  - intros m Hm. vm_compute in Hm. destruct Hm as [<-|[]]. reflexivity.
  - apply Nat.leb_le. vm_compute. reflexivity.
Defined.

(** With such a clock, an exchange of more than 1024 characters is
    appended without error and then removed by its own trim pass together
    with every earlier turn: the session is left empty. *)
Theorem oversized_append_wipes env sid q a w :
  wf_world w -> q <> "" -> a <> "" ->
  (forall m, In m (session_turns sid w) -> (createdAt m < now env)%Z) ->
  budget < String.length q + String.length a ->
  fst (saveConversation env sid q (JStr a) w) = Ok tt /\
  session_turns sid (snd (saveConversation env sid q (JStr a) w)) = [].
Proof.
  intros Hw Hq Ha Hclock Hsize. rewrite save_run by assumption.
  set (w1 := snd (Msg_save env sid q a (String.length q + String.length a) w)).
  split; [now rewrite discard_run|].
  assert (Hw1 : wf_world w1) by now apply wf_Msg_save.
  pose proof (discard_session sid w1 (proj1 Hw1)) as Hp.
  unfold w1 in Hp at 2 3. rewrite newest_first_after_insert in Hp by assumption.
  rewrite keep_count_head in Hp.
  assert (E : (budget <? msgSize (new_turn env sid q a w))%nat = true).
  { apply Nat.ltb_lt. simpl. exact Hsize. }
  rewrite E in Hp. simpl in Hp.
  symmetry in Hp. now apply Permutation_nil in Hp.
Qed.

Lemma oversized_append_wipes_witness :
  fst (saveConversation (env_at 2000) "s" (letters 600) (JStr (letters 600)) after_600)
  = Ok tt /\
  session_turns "s"
    (snd (saveConversation (env_at 2000) "s" (letters 600) (JStr (letters 600))
                           after_600)) = [].
Proof.
  apply oversized_append_wipes.
  - exact wf_after_600.
  - discriminate.
  - discriminate.
  - intros m Hm. vm_compute in Hm. destruct Hm as [<-|[]]. reflexivity.
  - apply Nat.ltb_lt. vm_compute. reflexivity.
Defined.

(** ** The ledger across requests *)

Lemma find_has_event eid l :
  find (fun e => event_id e =? eid) l = None <-> has_event eid l = false.
Proof.
  unfold has_event. induction l as [|e l IH]; simpl; [tauto|].
  destruct (event_id e =? eid); simpl; [split; discriminate | exact IH].
Qed.

Lemma not_in_ledger eid l :
  has_event eid l = false -> ~ In eid (map event_id l).
Proof.
  intros H Hin. apply in_map_iff in Hin as (e & Ee & He).
  assert (has_event eid l = true).
  { apply existsb_exists. exists e. split; auto. now apply String.eqb_eq. }
  congruence.
Qed.

(** The message-received branch from the dedup step on, for a ledger that
    does not hold the event id yet. *)
Lemma webhook_ledger_aux env params w ledger :
  Events (snd (webhook env params w)) = ledger ->
  ledger = Events w \/
  exists hdr,
    header params = Some hdr /\
    has_event (hdr_event_id hdr) (Events w) = false /\
    ledger = (Events w ++ [mkEvent (hdr_event_id hdr) None])%list.
Proof.
  unfold webhook.
  destruct (truthy (encrypt params)); [intros <-; now left|].
  destruct (strict_eq (type params) "url_verification"); [intros <-; now left|].
  destruct (header params) as [hdr|]; [|intros <-; now left].
  destruct (debug params); [intros <-; now left|].
  destruct (event_type hdr =? "im.message.receive_v1"); [|intros <-; now left].
  destruct (event params) as [ev|]; [|intros <-; now left].
  unfold bind at 1. unfold Event_findOne at 1.
  destruct (find _ (Events w)) eqn:F; [intros <-; now left|].
  apply find_has_event in F.
  unfold bind at 1.
  destruct (recordIfNew_cases (dedup_fault env) (hdr_event_id hdr) None w)
    as [E|(r & E & Hr)]; rewrite E.
  - set (w1 := mkWorld (Msgs w) (Events w ++ [mkEvent (hdr_event_id hdr) None])
                       (next_id w) (trace w)).
    assert (H1 : has_event (hdr_event_id hdr) (Events w1) = true).
    { unfold w1; simpl. rewrite has_event_app. simpl.
      now rewrite String.eqb_refl, orb_true_r. }
    assert (Hs : forall (m : M jsval),
               ledger_stable (hdr_event_id hdr) m ->
               Events (snd (m w1)) = ledger ->
               exists hdr0,
                 Some hdr = Some hdr0 /\
                 has_event (hdr_event_id hdr0) (Events w) = false /\
                 ledger = (Events w ++ [mkEvent (hdr_event_id hdr0) None])%list).
    { intros m Hm <-. exists hdr. rewrite (Hm w1 H1). auto. }
    assert (Hh : ledger_stable (hdr_event_id hdr)
                   (userInput <- JSON_parse (msg_content ev) ;;
                    handleReply env userInput
                      (session_of (chat_id ev) (sender_user_id ev))
                      (message_id ev) (hdr_event_id hdr))).
    { apply ls_bind; [|intros; apply ls_handleReply].
      unfold JSON_parse. destruct (msg_content ev); [apply ls_ret | apply ls_throw]. }
    intros HL. right. revert HL.
    destruct (chat_type ev =? "p2p").
    + destruct (negb (message_type ev =? "text")).
      * apply Hs. apply ls_bind; [apply ls_reply | intros; apply ls_ret].
      * apply Hs, Hh.
    + destruct (chat_type ev =? "group"); [apply Hs, Hh|].
      apply Hs, ls_ret.
  - intros <-. left. destruct r as [[|]|x]; simpl; auto. congruence.
Qed.

Lemma webhook_ledger env params w :
  Events (snd (webhook env params w)) = Events w \/
  exists hdr,
    header params = Some hdr /\
    has_event (hdr_event_id hdr) (Events w) = false /\
    Events (snd (webhook env params w))
    = (Events w ++ [mkEvent (hdr_event_id hdr) None])%list.
Proof. exact (webhook_ledger_aux env params w _ eq_refl). Qed.

(** Whatever the request and whatever fails, the ledger only grows, and
    it never comes to hold two records with one event id. *)
Theorem ledger_stays_unique env params w :
  ledger_unique w ->
  ledger_unique (snd (webhook env params w)) /\
  exists added, Events (snd (webhook env params w)) = (Events w ++ added)%list.
Proof.
  unfold ledger_unique. intros Hu.
  destruct (webhook_ledger env params w) as [E|(hdr & _ & Hnew & E)];
    rewrite E.
  - split; [exact Hu|]. exists []. now rewrite app_nil_r.
  - split; [|eauto].
    rewrite map_app. simpl.
    apply NoDup_app; auto.
    + constructor; [intros [] | constructor].
    + intros x Hx [<-|[]]. revert Hx. now apply not_in_ledger.
Qed.

Lemma ledger_stays_unique_witness :
  ledger_unique after_hi /\
  ledger_unique (snd (webhook (env_at 2000)
                              (text_event "p2p" "a" "bc" "e2" "m2" "more") after_hi)).
Proof.
  assert (H : ledger_unique after_hi).
  { vm_compute. constructor; [intros [] | constructor]. }
  split; [exact H|].
  exact (proj1 (ledger_stays_unique (env_at 2000)
                  (text_event "p2p" "a" "bc" "e2" "m2" "more") after_hi H)).
Defined.

Lemma ls_after_dedup env ev eid : ledger_stable eid (after_dedup env ev eid).
Proof.
  assert (Hh : ledger_stable eid
                 (userInput <- JSON_parse (msg_content ev) ;;
                  handleReply env userInput
                    (session_of (chat_id ev) (sender_user_id ev))
                    (message_id ev) eid)).
  { apply ls_bind; [|intros; apply ls_handleReply].
    unfold JSON_parse. destruct (msg_content ev); [apply ls_ret | apply ls_throw]. }
  unfold after_dedup.
  destruct (chat_type ev =? "p2p").
  - destruct (negb (message_type ev =? "text")); [|exact Hh].
    apply ls_bind; [apply ls_reply | intros; apply ls_ret].
  - destruct (chat_type ev =? "group"); [exact Hh | apply ls_ret].
Qed.

Lemma recordIfNew_fresh eid c w :
  has_event eid (Events w) = false ->
  recordIfNew None eid c w
  = (Ok Inserted, mkWorld (Msgs w) (Events w ++ [mkEvent eid c]) (next_id w) (trace w)).
Proof.
  intros H. unfold recordIfNew, try_catch, bind, Event_save. simpl. now rewrite H.
Qed.

Lemma has_event_recorded eid w : has_event eid (Events (recorded eid w)) = true.
Proof.
  simpl. rewrite has_event_app. simpl. now rewrite String.eqb_refl, orb_true_r.
Qed.

Section MessageEvent.
Variables (params : Params) (hdr : Header) (ev : MessageEvent).
Hypothesis no_encrypt : truthy (encrypt params) = false.
Hypothesis no_handshake : strict_eq (type params) "url_verification" = false.
Hypothesis has_header : header params = Some hdr.
Hypothesis no_debug : debug params = false.
Hypothesis is_message : event_type hdr = "im.message.receive_v1".
Hypothesis has_event_body : event params = Some ev.

Lemma webhook_message env w :
  webhook env params w
  = (seen <- Event_findOne (hdr_event_id hdr) ;;
     match seen with
     | Some _ => ret (obj_code 1)
     | None =>
         r <- recordIfNew (dedup_fault env) (hdr_event_id hdr) None ;;
         match r with
         | Duplicate => ret (obj_code_message 1 "Duplicate event ID")
         | Inserted => after_dedup env ev (hdr_event_id hdr)
         end
     end) w.
Proof.
  unfold webhook, after_dedup.
  now rewrite no_encrypt, no_handshake, has_header, no_debug, is_message,
    String.eqb_refl, has_event_body.
Qed.

Lemma webhook_seen env w :
  has_event (hdr_event_id hdr) (Events w) = true ->
  webhook env params w = (Ok (obj_code 1), w).
Proof.
  intros H. rewrite webhook_message. unfold bind, Event_findOne.
  destruct (find _ (Events w)) eqn:F; [reflexivity|].
  apply find_has_event in F. congruence.
Qed.

(** A fresh event without a storage fault: the dedup step records it and
    the chat-type gate takes over. *)
Lemma webhook_fresh env w :
  has_event (hdr_event_id hdr) (Events w) = false ->
  dedup_fault env = None ->
  webhook env params w
  = after_dedup env ev (hdr_event_id hdr) (recorded (hdr_event_id hdr) w).
Proof.
  intros Hnew Hf. rewrite webhook_message.
  unfold bind at 1. unfold Event_findOne.
  rewrite (proj2 (find_has_event _ _) Hnew).
  unfold bind. rewrite Hf, recordIfNew_fresh by assumption. reflexivity.
Qed.

Lemma webhook_records env w :
  dedup_fault env = None ->
  has_event (hdr_event_id hdr) (Events (snd (webhook env params w))) = true.
Proof.
  intros Hf.
  destruct (has_event (hdr_event_id hdr) (Events w)) eqn:Hw.
  - now rewrite webhook_seen.
  - rewrite webhook_fresh by assumption.
    rewrite (ls_after_dedup env ev _ _ (has_event_recorded _ w)).
    apply has_event_recorded.
Qed.
End MessageEvent.

(** A delivery is never handled twice: once a message-received event has
    gone through the webhook without a storage fault at the dedup step
    (whatever became of it afterwards, a crash included), every later
    delivery of the same envelope is answered {code: 1} and has no effect
    at all. *)
Theorem redelivery_ignored env env' params hdr ev w :
  truthy (encrypt params) = false ->
  strict_eq (type params) "url_verification" = false ->
  header params = Some hdr ->
  debug params = false ->
  event_type hdr = "im.message.receive_v1" ->
  event params = Some ev ->
  dedup_fault env = None ->
  webhook env' params (snd (webhook env params w))
  = (Ok (obj_code 1), snd (webhook env params w)).
Proof.
  intros H1 H2 H3 H4 H5 H6 Hf.
  apply (webhook_seen params hdr ev H1 H2 H3 H4 H5 H6).
  apply (webhook_records params hdr ev H1 H2 H3 H4 H5 H6). exact Hf.
Qed.

Lemma redelivery_ignored_witness :
  webhook (env_at 2000) group_image (snd (webhook (env_at 1000) group_image empty_world))
  = (Ok (obj_code 1), snd (webhook (env_at 1000) group_image empty_world)).
Proof.
  apply (redelivery_ignored (env_at 1000) (env_at 2000) group_image
           (mkHeader "im.message.receive_v1" "e1")
           (mkMessageEvent "m1" "oc_1" "image" "group"
                           (Some (JObj [("image_key", JStr "img_v2_1")])) "u1"));
    reflexivity.
Defined.

(** A fresh message-received event of a chat type other than direct and
    group is recorded in the ledger and acknowledged with {code: 2};
    nothing is sent and the endpoint is not called. *)
Theorem other_chat_type_acknowledged env params hdr ev w :
  truthy (encrypt params) = false ->
  strict_eq (type params) "url_verification" = false ->
  header params = Some hdr ->
  debug params = false ->
  event_type hdr = "im.message.receive_v1" ->
  event params = Some ev ->
  has_event (hdr_event_id hdr) (Events w) = false ->
  dedup_fault env = None ->
  chat_type ev <> "p2p" -> chat_type ev <> "group" ->
  webhook env params w = (Ok (obj_code 2), recorded (hdr_event_id hdr) w).
Proof.
  intros H1 H2 H3 H4 H5 H6 Hnew Hf Hp Hg.
  rewrite (webhook_fresh params hdr ev H1 H2 H3 H4 H5 H6 env w Hnew Hf).
  unfold after_dedup. apply String.eqb_neq in Hp, Hg. now rewrite Hp, Hg.
Qed.

Lemma other_chat_type_acknowledged_witness :
  webhook (env_at 1000) (text_event "topic" "oc_1" "u1" "e1" "m1" "hi") empty_world
  = (Ok (obj_code 2), recorded "e1" empty_world).
Proof.
  apply (other_chat_type_acknowledged (env_at 1000)
           (text_event "topic" "oc_1" "u1" "e1" "m1" "hi")
           (mkHeader "im.message.receive_v1" "e1")
           (mkMessageEvent "m1" "oc_1" "text" "topic"
                           (Some (JObj [("text", JStr "hi")])) "u1"));
    try reflexivity; discriminate.
Defined.

Lemma p2p_unsupported_witness :
  webhook (env_at 1000) p2p_image empty_world
  = (Ok (obj_code 0),
     mkWorld [] [mkEvent "e1" None] 0 [Replied "m1" (JStr unsupported)]).
Proof.
  apply (p2p_unsupported (env_at 1000)
           (mkHeader "im.message.receive_v1" "e1")
           (mkMessageEvent "m1" "oc_1" "image" "p2p"
                           (Some (JObj [("image_key", JStr "img_v2_1")])) "u1")
           p2p_image empty_world); try reflexivity; discriminate.
Defined.

Lemma webhook_never_stores_content_witness :
  In (mkEvent "e1" None) (Events after_hi) /\
  (In (mkEvent "e1" None) (Events empty_world) \/ content (mkEvent "e1" None) = None).
Proof.
  assert (H : In (mkEvent "e1" None) (Events after_hi)) by (vm_compute; auto).
  split; [exact H|].
  exact (webhook_never_stores_content (env_at 1000)
           (text_event "p2p" "ab" "c" "e1" "m1" "hi") empty_world
           (mkEvent "e1" None) H).
Defined.

(** ** The guards of the webhook *)

(** A request that is stopped by one of the guards (encryption flag,
    handshake, missing header, debug flag, other event type) gets its
    answer without any effect: nothing is stored, sent or fetched.  The
    encryption guard comes first, so a handshake that carries the flag is
    not answered with its challenge; without the flag the challenge is
    echoed. *)
Theorem guards_have_no_effect env params w :
  (truthy (encrypt params) = true \/
   strict_eq (type params) "url_verification" = true \/
   header params = None \/
   debug params = true \/
   (exists hdr, header params = Some hdr /\
                event_type hdr <> "im.message.receive_v1")) ->
  (exists v, webhook env params w = (Ok v, w)) /\
  (truthy (encrypt params) = true ->
   exists v, webhook env params w = (Ok v, w) /\ code_of v = JNum 1) /\
  (truthy (encrypt params) = false ->
   strict_eq (type params) "url_verification" = true ->
   webhook env params w = (Ok (JObj [("challenge", challenge params)]), w)).
Proof.
  intros H. split; [|split].
  - unfold webhook.
    destruct (truthy (encrypt params)); [eexists; reflexivity|].
    destruct (strict_eq (type params) "url_verification"); [eexists; reflexivity|].
    destruct (header params) as [hdr|]; [|eexists; reflexivity].
    destruct (debug params); [eexists; reflexivity|].
    destruct H as [H|[H|[H|[H|(hdr' & Hh & Ht)]]]]; try discriminate.
    injection Hh as <-. apply String.eqb_neq in Ht. rewrite Ht.
    eexists; reflexivity.
  - intros He. unfold webhook. rewrite He. eexists. split; reflexivity.
  - intros He Ht. unfold webhook. now rewrite He, Ht.
Qed.

Lemma guards_have_no_effect_witness :
  webhook (env_at 1000) handshake after_hi
  = (Ok (JObj [("challenge", JStr "abc123")]), after_hi).
Proof.
  apply (proj2 (proj2 (guards_have_no_effect (env_at 1000) handshake after_hi
                         (or_intror (or_introl eq_refl)))));
    reflexivity.
Defined.

(** The self-check passes (code 0) exactly when the app id starts with
    "cli_" and the app secret is not empty; otherwise its code is 1. *)
Theorem doctor_verdict env :
  (code_of (doctor env) = JNum 0 <->
   startsWith (LARK_APP_ID env) "cli_" = true /\ LARK_APP_SECRET env <> "") /\
  (code_of (doctor env) = JNum 0 \/ code_of (doctor env) = JNum 1).
Proof.
  unfold doctor.
  destruct (LARK_APP_ID env =? "") eqn:E1.
  - apply String.eqb_eq in E1. rewrite E1. simpl.
    split; [split; [discriminate | intros [H _]; discriminate] | now right].
  - destruct (startsWith (LARK_APP_ID env) "cli_") eqn:E2; simpl.
    + destruct (LARK_APP_SECRET env =? "") eqn:E3; simpl.
      * apply String.eqb_eq in E3.
        split; [split; [discriminate | intros [_ H]; contradiction] | now right].
      * apply String.eqb_neq in E3.
        split; [split; auto | now left].
    + split; [split; [discriminate | intros [H _]; discriminate] | now right].
Qed.

Lemma doctor_verdict_witness :
  startsWith (LARK_APP_ID (env_at 1000)) "cli_" = true /\
  LARK_APP_SECRET (env_at 1000) <> "" /\
  code_of (doctor (env_at 1000)) = JNum 0.
Proof.
  split; [reflexivity|]. split; [discriminate|].
  apply (proj2 (proj1 (doctor_verdict (env_at 1000)))).
  split; [reflexivity | discriminate].
Defined.

(** ** handleReply *)

Lemma buildConversation_run sid q w :
  buildConversation sid q w
  = (Ok (flat_map turn_entries (history sid w) ++ [mkEntry user q])%list, w).
Proof.
  unfold buildConversation, bind, Msg_find_sorted, ret.
  now rewrite fold_push_turn.
Qed.

(** handleReply on a text that is not a command, up to the append. *)
Lemma handleReply_conversation env userInput text sid mid eid w :
  get_prop userInput "text" = inr (JStr text) ->
  startsWith (trim (trim (replace "@_user_1" "" text))) "/" = false ->
  handleReply env userInput sid mid eid w
  = (let q := trim (replace "@_user_1" "" text) in
     let prompt := (flat_map turn_entries (history sid w) ++ [mkEntry user q])%list in
     openaiResponse <-
       try_catch
         (response <- query env (prompt_payload prompt) ;;
          lift (get_prop response "text"))
         (fun _ => ret JUndefined) ;;
     saveConversation env sid q openaiResponse ;;;
     reply env mid openaiResponse ;;;
     try_catch
       (Event_save (content_fault env) (mkEvent eid (Some text)) ;;;
        ret (obj_code 0))
       (fun error =>
          match error_code error with
          | Some 11000%N => ret (obj_code_message 1 "Duplicate event ID")
          | _ => throw error
          end)) w.
Proof.
  intros Ht Hc. unfold handleReply. rewrite Ht.
  unfold bind at 1. simpl lift. unfold ret at 1.
  unfold bind at 1. simpl as_string. unfold ret at 1.
  rewrite Hc.
  unfold bind at 1. rewrite buildConversation_run. reflexivity.
Qed.

Lemma discard_trimmed sid w :
  discardConversation sid w = (Ok tt, set_Msgs w (trimmed sid (Msgs w))).
Proof. apply discard_run. Qed.

(** The conversational turn in full.  For a text that is not a command
    and is not empty once the mention is stripped, and an endpoint whose
    body carries a non-empty text (whatever its status): the endpoint is
    called once with the history in order followed by the question, the
    exchange is appended and the session trimmed, the text is sent as the
    reply, and the ledger write is attempted last: it adds the record
    with the raw text if the ledger does not hold the event id, and is
    turned into {code: 1} if it does. *)
Theorem conversational_turn env userInput text sid mid eid w ok st result a :
  get_prop userInput "text" = inr (JStr text) ->
  startsWith (trim (trim (replace "@_user_1" "" text))) "/" = false ->
  trim (replace "@_user_1" "" text) <> "" ->
  flowise env = Response ok st (Some result) ->
  get_prop result "text" = inr (JStr a) ->
  a <> "" ->
  reply_fault env = false ->
  content_fault env = None ->
  let q := trim (replace "@_user_1" "" text) in
  let prompt := (flat_map turn_entries (history sid w) ++ [mkEntry user q])%list in
  let sent := [Fetched (prompt_payload prompt); Replied mid (JStr a)] in
  let turns := trimmed sid (Msgs w ++ [new_turn env sid q a w]) in
  handleReply env userInput sid mid eid w
  = if has_event eid (Events w)
    then (Ok (obj_code_message 1 "Duplicate event ID"),
          mkWorld turns (Events w) (S (next_id w)) (trace w ++ sent))
    else (Ok (obj_code 0),
          mkWorld turns (Events w ++ [mkEvent eid (Some text)])
                  (S (next_id w)) (trace w ++ sent)).
Proof.
  intros Ht Hc Hq Hf Hr Ha Hrf Hcf q prompt sent turns.
  rewrite (handleReply_conversation env userInput text sid mid eid w Ht Hc).
  fold q. fold prompt. cbv zeta.
  unfold bind at 1. unfold try_catch at 1. unfold bind at 1.
  rewrite query_run, Hf, Hr. simpl lift. unfold ret at 1.
  unfold bind at 1. rewrite save_run by assumption.
  rewrite discard_trimmed. simpl snd. simpl Msgs.
  unfold bind at 1. unfold reply, try_catch at 1. rewrite Hrf.
  unfold emit at 1. unfold set_Msgs. simpl.
  unfold try_catch, bind, Event_save. rewrite Hcf. simpl.
  fold (new_turn env sid q a w). fold turns.
  unfold sent. rewrite <- app_assoc. simpl.
  destruct (has_event eid (Events w)); reflexivity.
Qed.

Lemma conversational_turn_witness :
  handleReply (env_at 1000) (JObj [("text", JStr "@_user_1 hi")]) "abc" "m1" "e1"
              empty_world
  = (Ok (obj_code 0),
     mkWorld (trimmed "abc" [new_turn (env_at 1000) "abc" "hi" "hello" empty_world])
             [mkEvent "e1" (Some "@_user_1 hi")] 1
             [Fetched (prompt_payload [mkEntry user "hi"]);
              Replied "m1" (JStr "hello")]).
Proof.
  apply (conversational_turn (env_at 1000) (JObj [("text", JStr "@_user_1 hi")])
           "@_user_1 hi" "abc" "m1" "e1" empty_world true "OK"
           (JObj [("text", JStr "hello")]) "hello");
    try reflexivity; vm_compute; discriminate.
Defined.

Lemma save_empty_question env sid a w :
  saveConversation env sid "" a w = (Throw missing_answer, w).
Proof. reflexivity. Qed.

(** A message that is empty once the mention is stripped is not stopped
    before the endpoint: the endpoint is called with the history and an
    empty question, and only then does the append refuse the turn.
    Nothing is stored, no reply is sent, and the handler ends with the
    append's error, whatever the endpoint answered. *)
Theorem empty_question_still_queries env userInput text sid mid eid w :
  get_prop userInput "text" = inr (JStr text) ->
  trim (replace "@_user_1" "" text) = "" ->
  handleReply env userInput sid mid eid w
  = (Throw missing_answer,
     mkWorld (Msgs w) (Events w) (next_id w)
             (trace w ++ [Fetched (prompt_payload
                                     (flat_map turn_entries (history sid w)
                                        ++ [mkEntry user ""]))])).
Proof.
  intros Ht Hq.
  rewrite (handleReply_conversation env userInput text sid mid eid w Ht)
    by (rewrite Hq; reflexivity).
  rewrite Hq. cbv zeta.
  unfold bind at 1. unfold try_catch at 1. unfold bind at 1.
  rewrite query_run.
  destruct (flowise env) as [msg|ok st [result|]];
    try (unfold ret at 1; unfold bind at 1; rewrite save_empty_question; reflexivity).
  destruct (get_prop result "text") as [e|v]; simpl lift;
    unfold throw at 1, ret at 1; unfold bind at 1;
    rewrite save_empty_question; reflexivity.
Qed.

Lemma empty_question_still_queries_witness :
  handleReply (env_at 1000) (JObj [("text", JStr "@_user_1 ")]) "abc" "m1" "e9" after_hi
  = (Throw missing_answer,
     mkWorld (Msgs after_hi) (Events after_hi) (next_id after_hi)
             (trace after_hi
                ++ [Fetched (prompt_payload
                               (flat_map turn_entries (history "abc" after_hi)
                                  ++ [mkEntry user ""]))])).
Proof.
  apply (empty_question_still_queries (env_at 1000) (JObj [("text", JStr "@_user_1 ")])
           "@_user_1 "); reflexivity.
Defined.

(** Command dispatch.  A text that starts with "/" once mention and white
    space are stripped never reaches the endpoint, the append or the
    ledger, and is answered {code: 0}: exactly "/clear" empties the
    session and confirms, every other command (also "/help" and a
    "/clear" with anything after it) gets the usage text and changes
    nothing. *)
Theorem command_dispatch env userInput text sid mid eid w :
  get_prop userInput "text" = inr (JStr text) ->
  reply_fault env = false ->
  let action := trim (trim (replace "@_user_1" "" text)) in
  startsWith action "/" = true ->
  handleReply env userInput sid mid eid w
  = (Ok (obj_code 0),
     if action =? "/clear"
     then mkWorld (filter (fun m => negb (in_session sid m)) (Msgs w))
                  (Events w) (next_id w)
                  (trace w ++ [Replied mid (JStr "✅ All history removed")])
     else mkWorld (Msgs w) (Events w) (next_id w)
                  (trace w ++ [Replied mid (JStr helpText)])).
Proof.
  intros Ht Hrf action Hc. unfold handleReply. rewrite Ht.
  unfold bind at 1. simpl lift. unfold ret at 1.
  unfold bind at 1. simpl as_string. unfold ret at 1.
  fold action. rewrite Hc.
  unfold cmdProcess, cmdHelp, cmdClear, clearConversation, reply.
  destruct (action =? "/help") eqn:E1.
  - apply String.eqb_eq in E1. rewrite E1.
    unfold bind, try_catch. rewrite Hrf. reflexivity.
  - destruct (action =? "/clear");
      unfold bind, try_catch; rewrite Hrf; reflexivity.
Qed.

Lemma command_dispatch_witness :
  handleReply (env_at 1000) (JObj [("text", JStr "@_user_1 /clear ")]) "abc" "m2" "e2"
              after_hi
  = (Ok (obj_code 0),
     mkWorld [] (Events after_hi) (next_id after_hi)
             (trace after_hi ++ [Replied "m2" (JStr "✅ All history removed")])).
Proof.
  apply (command_dispatch (env_at 1000) (JObj [("text", JStr "@_user_1 /clear ")])
           "@_user_1 /clear " "abc" "m2" "e2" after_hi); reflexivity.
Defined.

(** ** A failing reply call *)

Lemma same_db_refl w : same_db w w.
Proof. now repeat split. Qed.

Lemma de_ret {A} (a : A) : db_equiv (ret a) (ret a).
Proof. intros w w' H. now split. Qed.

Lemma de_throw {A} e : db_equiv (@throw A e) (@throw A e).
Proof. intros w w' H. now split. Qed.

Lemma de_lift {A} (r : exn + A) : db_equiv (lift r) (lift r).
Proof. destruct r; [apply de_throw | apply de_ret]. Qed.

Lemma de_bind {A B} (m m' : M A) (k k' : A -> M B) :
  db_equiv m m' -> (forall a, db_equiv (k a) (k' a)) ->
  db_equiv (bind m k) (bind m' k').
Proof.
  intros Hm Hk w w' H. unfold bind. destruct (Hm w w' H) as [Hr Hs].
  destruct (m w) as [[a|e] w1], (m' w') as [[a'|e'] w1']; simpl in *;
    try discriminate.
  - injection Hr as <-. now apply Hk.
  - injection Hr as <-. now split.
Qed.

Lemma de_try {A} (m m' : M A) (h h' : exn -> M A) :
  db_equiv m m' -> (forall e, db_equiv (h e) (h' e)) ->
  db_equiv (try_catch m h) (try_catch m' h').
Proof.
  intros Hm Hh w w' H. unfold try_catch. destruct (Hm w w' H) as [Hr Hs].
  destruct (m w) as [[a|e] w1], (m' w') as [[a'|e'] w1']; simpl in *;
    try discriminate.
  - now split.
  - injection Hr as <-. now apply Hh.
Qed.

Lemma de_emit e : db_equiv (emit e) (emit e).
Proof. intros w w' H. split; [reflexivity | exact H]. Qed.

Lemma de_for_of {A} (l : list A) body :
  (forall c, db_equiv (body c) (body c)) -> db_equiv (for_of l body) (for_of l body).
Proof.
  intros Hb. induction l as [|c l IH]; simpl; [apply de_ret|].
  apply de_bind; auto.
Qed.

(** Whether the platform takes the reply or not, the caller sees the same. *)
Lemma de_reply env b mid text :
  db_equiv (reply (with_reply_fault b env) mid text) (reply env mid text).
Proof.
  intros w w' H. unfold reply, try_catch. simpl.
  destruct b, (reply_fault env); simpl; split; auto.
Qed.

Lemma de_find leb sid : db_equiv (Msg_find_sorted leb sid) (Msg_find_sorted leb sid).
Proof.
  intros w w' H. unfold Msg_find_sorted; simpl.
  split; [now rewrite (proj1 H) | exact H].
Qed.

Lemma de_deleteOne id : db_equiv (Msg_deleteOne id) (Msg_deleteOne id).
Proof.
  intros w w' (Hm & He & Hn). unfold Msg_deleteOne; simpl.
  split; [reflexivity|]. repeat split; simpl; congruence.
Qed.

Lemma de_deleteMany sid : db_equiv (Msg_deleteMany sid) (Msg_deleteMany sid).
Proof.
  intros w w' (Hm & He & Hn). unfold Msg_deleteMany; simpl.
  split; [reflexivity|]. repeat split; simpl; congruence.
Qed.

Lemma de_Msg_save env b sid q a size :
  db_equiv (Msg_save (with_reply_fault b env) sid q a size) (Msg_save env sid q a size).
Proof.
  intros w w' (Hm & He & Hn). unfold Msg_save; simpl.
  split; [reflexivity|]. repeat split; simpl; congruence.
Qed.

Lemma de_findOne eid : db_equiv (Event_findOne eid) (Event_findOne eid).
Proof.
  intros w w' H. unfold Event_findOne; simpl.
  split; [now rewrite (proj1 (proj2 H)) | exact H].
Qed.

Lemma de_Event_save fault doc : db_equiv (Event_save fault doc) (Event_save fault doc).
Proof.
  intros w w' H. unfold Event_save.
  destruct fault; [split; [reflexivity | exact H]|].
  rewrite (proj1 (proj2 H)). destruct (has_event (event_id doc) (Events w')).
  - split; [reflexivity | exact H].
  - destruct H as (Hm & He & Hn).
    split; [reflexivity|]. repeat split; simpl; congruence.
Qed.

Lemma de_discard sid : db_equiv (discardConversation sid) (discardConversation sid).
Proof.
  unfold discardConversation. apply de_bind; [apply de_find|].
  intros messages. apply de_for_of. intros c.
  destruct (budget <? snd c)%nat; [apply de_deleteOne | apply de_ret].
Qed.

Lemma de_save env b sid q a :
  db_equiv (saveConversation (with_reply_fault b env) sid q a)
           (saveConversation env sid q a).
Proof.
  unfold saveConversation. apply de_try; [|intros; apply de_throw].
  destruct (negb (truthy (JStr q)) || negb (truthy a)); [apply de_throw|].
  destruct a; try apply de_throw.
  apply de_bind; [apply de_Msg_save | intros; apply de_discard].
Qed.

Lemma de_query env b data :
  db_equiv (query (with_reply_fault b env) data) (query env data).
Proof.
  unfold query. apply de_try; [|intros; apply de_throw].
  apply de_bind; [apply de_emit|]. intros _. simpl flowise.
  destruct (flowise env) as [msg|ok st [result|]];
    try apply de_throw; apply de_ret.
Qed.

Lemma de_cmdProcess env b action sid mid :
  db_equiv (cmdProcess (with_reply_fault b env) action sid mid)
           (cmdProcess env action sid mid).
Proof.
  unfold cmdProcess. apply de_bind; [|intros; apply de_ret].
  unfold cmdHelp, cmdClear, clearConversation.
  destruct (action =? "/help"); [apply de_reply|].
  destruct (action =? "/clear"); [|apply de_reply].
  apply de_bind; [apply de_deleteMany | intros; apply de_reply].
Qed.

Lemma de_handleReply env b userInput sid mid eid :
  db_equiv (handleReply (with_reply_fault b env) userInput sid mid eid)
           (handleReply env userInput sid mid eid).
Proof.
  unfold handleReply.
  apply de_bind; [apply de_lift|]. intros t.
  apply de_bind; [destruct t; try apply de_throw; apply de_ret|]. intros text.
  destruct (startsWith _ "/"); [apply de_cmdProcess|].
  apply de_bind.
  { unfold buildConversation. apply de_bind; [apply de_find | intros; apply de_ret]. }
  intros prompt.
  apply de_bind.
  { apply de_try; [|intros; apply de_ret].
    apply de_bind; [apply de_query | intros; apply de_lift]. }
  intros answer.
  apply de_bind; [apply de_save|]. intros _.
  apply de_bind; [apply de_reply|]. intros _.
  simpl content_fault.
  apply de_try.
  - apply de_bind; [apply de_Event_save | intros; apply de_ret].
  - intros e. destruct (error_code e) as [n|]; [|apply de_throw].
    destruct n as [|p]; [apply de_throw|].
    repeat (destruct p as [p|p|]; try apply de_throw).
    apply de_ret.
Qed.

(** A failed outbound reply is swallowed: whether the platform accepts
    the replies of a request or rejects them, the webhook gives the same
    answer (or raises the same error) and leaves the same conversation
    store and ledger. *)
Theorem reply_failure_is_harmless env b params w :
  fst (webhook (with_reply_fault b env) params w) = fst (webhook env params w) /\
  same_db (snd (webhook (with_reply_fault b env) params w))
          (snd (webhook env params w)).
Proof.
  assert (H : db_equiv (webhook (with_reply_fault b env) params) (webhook env params)).
  { unfold webhook.
    destruct (truthy (encrypt params)); [apply de_ret|].
    destruct (strict_eq (type params) "url_verification"); [apply de_ret|].
    destruct (header params) as [hdr|]; [|apply de_ret].
    destruct (debug params); [apply de_ret|].
    destruct (event_type hdr =? "im.message.receive_v1"); [|apply de_ret].
    destruct (event params) as [ev|]; [|apply de_throw].
    apply de_bind; [apply de_findOne|]. intros [seen|]; [apply de_ret|].
    apply de_bind.
    { unfold recordIfNew. simpl dedup_fault. apply de_try.
      - apply de_bind; [apply de_Event_save | intros; apply de_ret].
      - intros e. destruct (error_code e) as [n|]; [|apply de_throw].
        destruct n as [|p]; [apply de_throw|].
        repeat (destruct p as [p|p|]; try apply de_throw).
        apply de_ret. }
    intros [|]; [|apply de_ret].
    assert (Hh : db_equiv
                   (userInput <- JSON_parse (msg_content ev) ;;
                    handleReply (with_reply_fault b env) userInput
                      (session_of (chat_id ev) (sender_user_id ev))
                      (message_id ev) (hdr_event_id hdr))
                   (userInput <- JSON_parse (msg_content ev) ;;
                    handleReply env userInput
                      (session_of (chat_id ev) (sender_user_id ev))
                      (message_id ev) (hdr_event_id hdr))).
    { apply de_bind; [|intros; apply de_handleReply].
      unfold JSON_parse. destruct (msg_content ev); [apply de_ret | apply de_throw]. }
    destruct (chat_type ev =? "p2p").
    - destruct (negb (message_type ev =? "text")); [|exact Hh].
      apply de_bind; [apply de_reply | intros; apply de_ret].
    - destruct (chat_type ev =? "group"); [exact Hh | apply de_ret]. }
  apply H, same_db_refl.
Qed.

(** ** The secondary variant *)

Lemma queryFlowise_world env q sid w :
  snd (Teams.queryFlowise env q sid w)
  = mkWorld (Msgs w) (Events w) (next_id w)
            (trace w ++ [Fetched
                           (JObj [("question", q);
                                  ("overrideConfig",
                                   JObj [("sessionId",
                                          if truthy sid then sid
                                          else JStr "default-session")])])]).
Proof.
  unfold Teams.queryFlowise. rewrite try_rethrow. unfold bind, emit. simpl.
  destruct (flowise env) as [msg|ok st [result|]]; try reflexivity;
    destruct ok; simpl; try reflexivity.
  destruct (truthy result) eqn:T; simpl; [|reflexivity].
  rewrite (get_prop_truthy result T). simpl.
  destruct (truthy (text_field result)); reflexivity.
Qed.

(** The secondary endpoint only relays: it never touches the
    conversation store or the ledger, and it calls the completion
    endpoint at most once, only for a request that has both fields, with
    the request's own text and session id; the "default-session"
    fallback of queryFlowise is never used on this path. *)
Theorem teams_only_relays env body w :
  let w' := snd (Teams.teams_webhook env body w) in
  Msgs w' = Msgs w /\ Events w' = Events w /\
  (trace w' = trace w \/
   exists text sid,
     get_prop body "text" = inr text /\
     get_prop body "sessionId" = inr sid /\
     truthy text = true /\ truthy sid = true /\
     trace w' = (trace w ++ [Fetched
                               (JObj [("question", text);
                                      ("overrideConfig",
                                       JObj [("sessionId", sid)])])])%list).
Proof.
  unfold Teams.teams_webhook, bind.
  destruct (get_prop body "text") as [e|text] eqn:Ht; simpl; [auto|].
  destruct (get_prop body "sessionId") as [e|sid] eqn:Hs; simpl; [auto|].
  destruct (truthy text) eqn:Tt; simpl; [|auto].
  destruct (truthy sid) eqn:Ts; simpl; [|auto].
  unfold try_catch.
  pose proof (queryFlowise_world env text sid w) as Hw. rewrite Ts in Hw.
  destruct (Teams.queryFlowise env text sid w) as [[answer|e] w1];
    simpl in *; subst w1; simpl;
    (split; [reflexivity|]; split; [reflexivity|]);
    right; exists text, sid; auto.
Qed.

(** Given a body that is an object, the secondary endpoint always
    answers, with status 400, 200 or 500; no failure of the endpoint
    escapes its handler. *)
Theorem teams_always_answers env fields w :
  exists response,
    fst (Teams.teams_webhook env (JObj fields) w) = Ok response /\
    (Teams.status response = 400 \/ Teams.status response = 200 \/
     Teams.status response = 500).
Proof.
  unfold Teams.teams_webhook, bind. simpl.
  destruct (negb (truthy (assoc "text" fields))
            || negb (truthy (assoc "sessionId" fields))); simpl.
  - eexists. split; [reflexivity | auto].
  - unfold try_catch.
    destruct (Teams.queryFlowise env _ _ w) as [[answer|e] w1]; simpl;
      eexists; (split; [reflexivity | auto]).
Qed.

(** ** From one turn to the next *)

Lemma insert_asc_last a x s :
  asc a x = true ->
  insert_sorted asc a (s ++ [x]) = (insert_sorted asc a s ++ [x])%list.
Proof.
  intros H. induction s as [|y s IH]; simpl.
  - now rewrite H.
  - destruct (asc a y); [reflexivity|]. now rewrite IH.
Qed.

Lemma sort_asc_newest x l :
  (forall m, In m l -> (createdAt m < createdAt x)%Z) ->
  sort_by asc (l ++ [x]) = (sort_by asc l ++ [x])%list.
Proof.
  induction l as [|a l IH]; intros H; [reflexivity|].
  simpl. rewrite IH by (intros m Hm; apply H; now right).
  apply insert_asc_last. unfold asc. apply Z.leb_le.
  specialize (H a (or_introl eq_refl)). lia.
Qed.

Lemma session_after_insert env sid q a w :
  session_turns sid
    (snd (Msg_save env sid q a (String.length q + String.length a) w))
  = (session_turns sid w ++ [new_turn env sid q a w])%list.
Proof.
  unfold session_turns; simpl. rewrite filter_app. simpl.
  unfold in_session at 2; simpl. now rewrite String.eqb_refl.
Qed.

(** After an exchange of at most 1024 characters, appended with a clock
    that has moved on since the session's last turn, the session's
    history ends with that exchange and holds nothing that was not there
    before; so the next prompt ends with its question, its answer, and
    the next question. *)
Theorem next_prompt_continues env sid q a q' w :
  wf_world w -> q <> "" -> a <> "" ->
  (forall m, In m (session_turns sid w) -> (createdAt m < now env)%Z) ->
  String.length q + String.length a <= budget ->
  let w' := snd (saveConversation env sid q (JStr a) w) in
  exists older,
    incl older (session_turns sid w) /\
    history sid w' = (older ++ [new_turn env sid q a w])%list /\
    fst (buildConversation sid q' w')
    = Ok (flat_map turn_entries older
            ++ [mkEntry user q; mkEntry assistant a; mkEntry user q'])%list.
Proof.
  intros Hw Hq Ha Hclock Hsize w'.
  set (w1 := snd (Msg_save env sid q a (String.length q + String.length a) w)).
  set (new := new_turn env sid q a w).
  set (keep := fun m => negb (mem (_id m) (doomed 0 (newest_first sid w1)))).
  assert (Hw1 : wf_world w1) by now apply wf_Msg_save.
  assert (Hnf : newest_first sid w1 = new :: newest_first sid w)
    by now apply newest_first_after_insert.
  assert (Hkeep : keep new = true).
  { unfold keep. apply negb_true_iff.
    rewrite mem_doomed.
    - rewrite Hnf. simpl upto. rewrite Nat.eqb_refl.
      apply Nat.ltb_ge. unfold total_size; simpl. lia.
    - apply newest_first_NoDup, Hw1.
    - rewrite Hnf. now left. }
  assert (Hturns : session_turns sid w'
                   = (filter keep (session_turns sid w) ++ [new])%list).
  { unfold w'. rewrite save_run by assumption. fold w1.
    unfold session_turns at 1. rewrite discard_Msgs by apply Hw1.
    fold keep. rewrite filter_comm.
    change (filter (in_session sid) (Msgs w1)) with (session_turns sid w1).
    unfold w1. rewrite session_after_insert. fold new.
    rewrite filter_app. cbn [filter]. now rewrite Hkeep. }
  exists (sort_by asc (filter keep (session_turns sid w))).
  assert (Hhist : history sid w'
                  = (sort_by asc (filter keep (session_turns sid w)) ++ [new])%list).
  { unfold history. rewrite Hturns. apply sort_asc_newest.
    intros m Hm. apply filter_In in Hm as [Hm _]. now apply Hclock. }
  split; [|split].
  - intros m Hm.
    apply (Permutation_in _ (sort_by_perm asc _)) in Hm.
    now apply filter_In in Hm as [Hm _].
  - exact Hhist.
  - rewrite buildConversation_run, Hhist. simpl fst. f_equal.
    rewrite flat_map_app. simpl. rewrite <- app_assoc. reflexivity.
Qed.

Lemma next_prompt_continues_witness :
  exists older,
    incl older (session_turns "s" after_600) /\
    history "s" after_600_500
    = (older ++ [new_turn (env_at 2000) "s" (letters 250) (letters 250) after_600])%list /\
    fst (buildConversation "s" "next" after_600_500)
    = Ok (flat_map turn_entries older
            ++ [mkEntry user (letters 250); mkEntry assistant (letters 250);
                mkEntry user "next"])%list.
Proof.
  apply (next_prompt_continues (env_at 2000) "s" (letters 250) (letters 250) "next"
           after_600).
  - exact wf_after_600.
  - discriminate.
  - discriminate.
  - intros m Hm. vm_compute in Hm. destruct Hm as [<-|[]]. reflexivity.
  - apply Nat.leb_le. vm_compute. reflexivity.
Defined.

(** ** Stored sizes *)

Lemma Forall_remove_first (P : Msg -> Prop) id l :
  Forall P l -> Forall P (remove_first id l).
Proof.
  induction 1 as [|m l Hm Hl IH]; simpl; [constructor|].
  destruct (_id m =? id)%nat; [exact Hl | now constructor].
Qed.

Lemma Forall_trimmed (P : Msg -> Prop) sid l : Forall P l -> Forall P (trimmed sid l).
Proof.
  unfold trimmed. generalize (doomed 0 (sort_by desc (filter (in_session sid) l))).
  intros D. revert l. induction D as [|d D IH]; intros l H; simpl; [exact H|].
  now apply IH, Forall_remove_first.
Qed.

Lemma nonempty_length s : s <> "" -> 1 <= String.length s.
Proof. destruct s; [congruence | simpl; lia]. Qed.

Lemma well_sized_total l :
  Forall well_sized l -> 2 * List.length l <= total_size l.
Proof.
  induction 1 as [|m l (Hq & Ha & Hs) _ IH]; [unfold total_size; simpl; lia|].
  apply nonempty_length in Hq, Ha.
  unfold total_size in *; simpl. lia.
Qed.

Lemma save_throw_unchanged env sid q a w e w0 :
  saveConversation env sid q a w = (Throw e, w0) -> w0 = w.
Proof.
  unfold saveConversation. rewrite try_rethrow.
  destruct (negb (truthy (JStr q)) || negb (truthy a));
    [unfold throw; congruence|].
  destruct a; try (unfold throw; congruence).
  unfold bind. simpl. rewrite discard_run. discriminate.
Qed.

(** saveConversation keeps every stored turn well sized (non-empty
    question and answer, msgSize their joint length), and after a
    successful append the session holds at most 512 turns, so the next
    prompt has at most 1025 entries. *)
Theorem stored_turns_well_sized env sid q a w :
  wf_world w ->
  Forall well_sized (Msgs w) ->
  let w' := snd (saveConversation env sid q a w) in
  Forall well_sized (Msgs w') /\
  (fst (saveConversation env sid q a w) = Ok tt ->
   List.length (session_turns sid w') <= 512 /\
   forall q' prompt, fst (buildConversation sid q' w') = Ok prompt ->
                     List.length prompt <= 1025).
Proof.
  intros Hw Hall w'.
  assert (Hkeep : Forall well_sized (Msgs w')).
  { unfold w'. destruct (saveConversation env sid q a w) as [[[]|e] w0] eqn:E.
    - apply save_ok in E as (a' & -> & Hq & Ha & ->).
      rewrite discard_trimmed. simpl.
      apply Forall_trimmed, Forall_app. split; [exact Hall|].
      constructor; [|constructor]. now repeat split.
    - apply save_throw_unchanged in E. simpl. now subst w0. }
  split; [exact Hkeep|]. intros Hok.
  assert (Hlen : List.length (session_turns sid w') <= 512).
  { assert (E : saveConversation env sid q a w = (Ok tt, w')).
    { unfold w'. rewrite <- Hok. apply surjective_pairing. }
    apply save_ok in E as (a' & Ea & Hq & Ha & E).
    assert (Hsum : total_size (session_turns sid w') <= budget).
    { rewrite E.
      set (w1 := snd (Msg_save env sid q a' (String.length q + String.length a') w)).
      assert (Hw1 : wf_world w1) by now apply wf_Msg_save.
      rewrite (total_size_perm _ _ (discard_session sid w1 (proj1 Hw1))).
      apply (firstn_keep_count_size (newest_first sid w1) 0). lia. }
    assert (Hs : Forall well_sized (session_turns sid w')).
    { apply Forall_forall. intros m Hm. apply filter_In in Hm as [Hm _].
      revert m Hm. now apply Forall_forall. }
    apply well_sized_total in Hs. unfold budget in Hsum. lia. }
  split; [exact Hlen|].
  intros q' prompt Hp. rewrite buildConversation_run in Hp. simpl in Hp.
  injection Hp as <-. rewrite length_app, length_turn_entries. simpl.
  unfold history. rewrite (Permutation_length (sort_by_perm asc _)). lia.
Qed.

Lemma stored_turns_well_sized_witness :
  wf_world after_600 /\
  Forall well_sized (Msgs after_600) /\
  List.length (session_turns "s" after_600_500) <= 512.
Proof.
  assert (Hs : Forall well_sized (Msgs after_600)).
  { vm_compute. constructor; [|constructor].
    repeat split; discriminate. }
  split; [exact wf_after_600|]. split; [exact Hs|].
  apply (stored_turns_well_sized (env_at 2000) "s" (letters 250) (JStr (letters 250))
           after_600 wf_after_600 Hs).
  vm_compute. reflexivity.
Defined.
